(** * Icon atlas manager: shelf packer, icon differ and atlas updater

    A shallow embedding of [modules/layers/src/icon-layer/icon-manager.js]
    and the properties of its packing, diffing and caching behaviour.

    Conventions of the embedding.
    - Pixel quantities (widths, heights, offsets, the buffer) are natural
      numbers of type [N].  The sums, differences, maxima and comparisons of
      the source are exact in its doubles below [2^53]; its logarithm is
      exact on a smaller range, which still holds every size that a texture
      can have (see [nextPowOfTwo]).
    - A JavaScript object used as a dictionary is a finite map over string
      keys: [gmap string _] where only lookups and assignments happen, and
      an insertion-ordered association list where the source enumerates it
      ([Object.values]).  A read [o[k]] that finds no own property goes on
      to the prototype of [o]; see the section on property reads.
    - An absent property ([undefined]) of an object is [None]. *)

From Stdlib Require Import NArith String Ascii List Lia.
From stdpp Require Import base option gmap strings list fin_maps.

Local Open Scope string_scope.
Local Open Scope N_scope.

(** ** JavaScript values that the module manipulates *)

Module Js.

(** The values that flow through [getIconId] and the url comparison of
    the differ. *)
Inductive Val :=
| VUndefined
| VNull
| VBool (b : bool)
| VString (s : string).

#[global] Instance Val_eq_dec : EqDecision Val.
Proof. solve_decision. Defined.

(** [ToBoolean]. *)
Definition truthy (v : Val) : bool :=
  match v with
  | VUndefined | VNull => false
  | VBool b => b
  | VString s => negb (String.eqb s EmptyString)
  end.

(** [a || b] on values. *)
Definition or (a b : Val) : Val := if truthy a then a else b.

(** [!a]. *)
Definition not (a : Val) : Val := VBool (negb (truthy a)).

(** [a !== b]: strict inequality never converts its operands. *)
Definition strict_neq (a b : Val) : bool := negb (bool_decide (a = b)).

(** [ToPropertyKey] of a value used in [obj[v]]. *)
Definition toPropertyKey (v : Val) : string :=
  match v with
  | VUndefined => "undefined"
  | VNull => "null"
  | VBool true => "true"
  | VBool false => "false"
  | VString s => s
  end.

(** A property that may be absent. *)
Definition prop (o : option string) : Val :=
  match o with
  | Some s => VString s
  | None => VUndefined
  end.

(** The names of the properties of [Object.prototype], which every plain
    object inherits: those of the language and those of its annex for
    browsers. *)
Definition prototypeNames : list string :=
  ["constructor"; "hasOwnProperty"; "isPrototypeOf"; "propertyIsEnumerable";
   "toLocaleString"; "toString"; "valueOf";
   "__defineGetter__"; "__defineSetter__"; "__lookupGetter__"; "__lookupSetter__";
   "__proto__"].

(** [k] names a property of [Object.prototype]. *)
Definition inherited (k : string) : bool := bool_decide (k ∈ prototypeNames).

End Js.

(** ** Data model *)

(** An icon descriptor [{id, url, width, height}]. *)
Record Icon := mkIcon {
  icon_id : option string;
  icon_url : option string;
  icon_width : N;
  icon_height : N
}.

#[global] Instance Icon_eq_dec : EqDecision Icon.
Proof. solve_decision. Defined.

(** What an icon-extraction function may return for a record: nothing
    ([undefined] or [null]), a string (the key into a pre-packed mapping),
    or an icon descriptor. *)
Inductive IconVal :=
| IUndefined
| INull
| IString (s : string)
| IObject (icon : Icon).

(** [Object.assign({}, icon, {x, y})]. *)
Record PositionedIcon := mkPositioned {
  pos_icon : Icon;
  pos_x : N;
  pos_y : N
}.

#[global] Instance PositionedIcon_eq_dec : EqDecision PositionedIcon.
Proof. solve_decision. Defined.

(** An entry [{icon, xOffset}] queued for the current row. *)
Record Column := mkColumn {
  col_icon : Icon;
  col_xOffset : N
}.

(** ** Constants and geometry utilities *)

Definition MAX_CANVAS_WIDTH : N := 1024.
Definition DEFAULT_BUFFER : N := 4.

(** The numbers up to which [nextPowOfTwo] below is the function of the
    source: far more than the side of any texture, and well within the
    range in which the rounding of [Math.log2] cannot reach the next
    integer. *)
Definition exactLog2Bound : N := 2 ^ 32.

(** [Math.pow(2, Math.ceil(Math.log2(number)))].  At [0] the source computes
    [Math.pow(2, -Infinity)], which is [0].  The logarithm is taken exactly
    here.  The source takes it in double precision: for a number just above
    a large power of two ([2^49 + 1] is one) [Math.log2] rounds down to an
    integer and the source returns the power of two below the number.  Up
    to [exactLog2Bound] the two agree, and the heights of an atlas stay far
    below it. *)
Definition nextPowOfTwo (number : N) : N :=
  if number =? 0 then 0 else 2 ^ N.log2_up number.

(** [ToBoolean] of an extracted value: what [!icon] tests. *)
Definition iconval_truthy (v : IconVal) : bool :=
  match v with
  | IUndefined | INull => false
  | IString s => negb (String.eqb s EmptyString)
  | IObject _ => true
  end.

(** [icon && (icon.id || icon.url)].  A falsy [icon] is returned as it is; a
    string has neither an [id] nor a [url] property. *)
Definition getIconId (icon : IconVal) : Js.Val :=
  match icon with
  | IUndefined => Js.VUndefined
  | INull => Js.VNull
  | IString s => if String.eqb s EmptyString then Js.VString s else Js.VUndefined
  | IObject i => Js.or (Js.prop (icon_id i)) (Js.prop (icon_url i))
  end.

(** [icon.url] of a truthy extracted value; a string has no such property. *)
Definition iconUrl (icon : IconVal) : Js.Val :=
  match icon with
  | IObject i => Js.prop (icon_url i)
  | _ => Js.VUndefined
  end.

(** The key under which an icon descriptor is stored: [mapping[getIconId(icon)]]. *)
Definition iconKey (icon : Icon) : string :=
  Js.toPropertyKey (getIconId (IObject icon)).

(** ** Shelf packer *)

(** [buildRowMapping]: commits the queued columns of one row at [yOffset].
    The assignment [mapping[id] = entry] binds [id] to the entry; under the
    id [__proto__] it makes the entry the prototype of the mapping, which
    the map records as the binding of that key (see [mappingGet]). *)
Fixpoint buildRowMapping (mapping : gmap string PositionedIcon)
    (columns : list Column) (yOffset : N) : gmap string PositionedIcon :=
  match columns with
  | [] => mapping
  | c :: rest =>
      buildRowMapping
        (<[iconKey (col_icon c) := mkPositioned (col_icon c) (col_xOffset c) yOffset]> mapping)
        rest yOffset
  end.

(** The variables of the loop of [buildMapping]. *)
Record PackState := mkPack {
  pk_mapping : gmap string PositionedIcon;
  pk_columns : list Column;
  pk_xOffset : N;
  pk_yOffset : N;
  pk_rowHeight : N
}.

(** One iteration of the loop of [buildMapping]: when the icon does not fit
    ([xOffset + width + buffer > maxCanvasWidth]) the queued row is committed
    and a new one starts below it; then the icon is queued at [xOffset] and
    the cursor and the row height advance. *)
Definition packIcon (buffer maxCanvasWidth : N) (st : PackState) (icon : Icon) : PackState :=
  let st1 :=
    if maxCanvasWidth <? pk_xOffset st + icon_width icon + buffer then
      mkPack (buildRowMapping (pk_mapping st) (pk_columns st) (pk_yOffset st))
             [] 0 (pk_rowHeight st + pk_yOffset st + buffer) 0
    else st in
  mkPack (pk_mapping st1)
         (pk_columns st1 ++ [mkColumn icon (pk_xOffset st1)])
         (pk_xOffset st1 + icon_width icon + buffer)
         (pk_yOffset st1)
         (N.max (pk_rowHeight st1) (icon_height icon)).

(** The whole loop, from the state the call starts in. *)
Definition packLoop (buffer maxCanvasWidth : N) (st : PackState) (icons : list Icon) : PackState :=
  fold_left (packIcon buffer maxCanvasWidth) icons st.

(** The flush after the loop: [if (columns.length > 0) buildRowMapping(...)]. *)
Definition packFlush (st : PackState) : gmap string PositionedIcon :=
  match pk_columns st with
  | [] => pk_mapping st
  | _ :: _ => buildRowMapping (pk_mapping st) (pk_columns st) (pk_yOffset st)
  end.

(** The object that [buildMapping] returns. *)
Record BuildResult := mkBuild {
  mapping : gmap string PositionedIcon;
  xOffset : N;
  yOffset : N;
  canvasWidth : N;
  canvasHeight : N
}.

(** The state in which the loop of [buildMapping] starts; an argument that is
    [undefined] takes its default ([mapping = {}], [xOffset = 0],
    [yOffset = 0]), and [rowHeight] always restarts at [0]. *)
Definition packInit (mapping0 : option (gmap string PositionedIcon))
    (xOffset0 yOffset0 : option N) : PackState :=
  mkPack (default ∅ mapping0) [] (default 0 xOffset0) (default 0 yOffset0) 0.

(** [buildMapping({icons, buffer, mapping, xOffset, yOffset, maxCanvasWidth})] *)
Definition buildMapping (icons : list Icon) (buffer : N)
    (mapping0 : option (gmap string PositionedIcon))
    (xOffset0 yOffset0 : option N) (maxCanvasWidth : N) : BuildResult :=
  let st := packLoop buffer maxCanvasWidth (packInit mapping0 xOffset0 yOffset0) icons in
  mkBuild (packFlush st)
          (pk_xOffset st)
          (pk_yOffset st)
          maxCanvasWidth
          (nextPowOfTwo (pk_rowHeight st + pk_yOffset st + buffer)).

(** ** Insertion-ordered objects

    The differ collects its result in a plain object and the updater
    enumerates it with [Object.values]: own keys that are array indices come
    first, in ascending numeric order, then the other string keys in the
    order of their first assignment.  Assigning to a key that is already
    present keeps its place. *)

Module Obj.

Definition t (A : Type) : Type := list (string * A).

Definition empty {A : Type} : t A := [].

(** [o[k]] *)
Fixpoint get {A : Type} (o : t A) (k : string) : option A :=
  match o with
  | [] => None
  | (k', v) :: rest => if String.eqb k' k then Some v else get rest k
  end.

(** [o[k] = v] *)
Fixpoint set {A : Type} (o : t A) (k : string) (v : A) : t A :=
  match o with
  | [] => [(k, v)]
  | (k', v') :: rest =>
      if String.eqb k' k then (k', v) :: rest else (k', v') :: set rest k v
  end.

Definition digit (c : ascii) : option N :=
  let n := N_of_ascii c in
  if (48 <=? n) && (n <=? 57) then Some (n - 48) else None.

Fixpoint parseDigits (s : string) (acc : N) : option N :=
  match s with
  | EmptyString => Some acc
  | String c rest =>
      match digit c with
      | Some d => parseDigits rest (10 * acc + d)
      | None => None
      end
  end.

(** A key is an array index when it is the canonical decimal form of an
    integer below [2^32 - 1]. *)
Definition arrayIndex (s : string) : option N :=
  match s with
  | EmptyString => None
  | String c rest =>
      if Ascii.eqb c "0" && negb (String.eqb rest EmptyString) then None
      else match parseDigits s 0 with
           | Some n => if n <? 2 ^ 32 - 1 then Some n else None
           | None => None
           end
  end.

Fixpoint insertIndexed {A : Type} (n : N) (v : A) (l : list (N * A)) : list (N * A) :=
  match l with
  | [] => [(n, v)]
  | (m, w) :: rest =>
      if n <? m then (n, v) :: l else (m, w) :: insertIndexed n v rest
  end.

(** The entries under array-index keys, in ascending order of the index. *)
Fixpoint indexed {A : Type} (o : t A) : list (N * A) :=
  match o with
  | [] => []
  | (k, v) :: rest =>
      match arrayIndex k with
      | Some n => insertIndexed n v (indexed rest)
      | None => indexed rest
      end
  end.

(** The entries under the other keys, in insertion order. *)
Fixpoint named {A : Type} (o : t A) : list A :=
  match o with
  | [] => []
  | (k, v) :: rest =>
      match arrayIndex k with
      | Some _ => named rest
      | None => v :: named rest
      end
  end.

(** [Object.values(o)] *)
Definition values {A : Type} (o : t A) : list A :=
  map snd (indexed o) ++ named o.

End Obj.

(** ** Errors and results *)

Inductive Error :=
| IconMissing      (** [new Error('Icon is missing.')] *)
| IconUrlMissing   (** [new Error('Icon url is missing.')] *)
| TypeError.       (** a property read on [undefined] or [null], a call of [null] *)

Inductive Result (A : Type) :=
| Return (a : A)
| Throw (e : Error).
Arguments Return {A} a.
Arguments Throw {A} e.

(** ** Property reads on plain objects

    A read [o[k]] yields the own property [k] of [o] or else the property
    [k] of the prototype of [o].  The prototype of a plain object is
    [Object.prototype] until an assignment [o['__proto__'] = v] of an object
    [v] replaces it by [v], whose own prototype is [Object.prototype]; such
    an assignment creates no own property, and [o['__proto__']] reads the
    prototype. *)

(** A value found on the prototype chain rather than among the entries of a
    dictionary. *)
Inductive ProtoValue :=
| Builtin (name : string)    (** [Object.prototype[name]]: a function, and
                                 [Object.prototype] itself for [__proto__] *)
| FieldString (s : string)   (** a string property of the object that was
                                 made the prototype *)
| FieldNumber (n : N).       (** a number property of that object *)

(** [ToBoolean] of such a value. *)
Definition protoTruthy (v : ProtoValue) : bool :=
  match v with
  | Builtin _ => true
  | FieldString s => negb (String.eqb s EmptyString)
  | FieldNumber n => negb (n =? 0)
  end.

(** What a read [o[k]] of a dictionary with entries of type [A] yields. *)
Inductive Read (A : Type) :=
| Own (a : A)
| FromPrototype (v : ProtoValue)
| Undefined.
Arguments Own {A} a.
Arguments FromPrototype {A} v.
Arguments Undefined {A}.

(** [ToBoolean] of what was read; an entry is an object. *)
Definition readTruthy {A : Type} (r : Read A) : bool :=
  match r with
  | Own _ => true
  | FromPrototype v => protoTruthy v
  | Undefined => false
  end.

(** The read of [k] on [Object.prototype], where every chain ends. *)
Definition objectPrototypeGet {A : Type} (k : string) : Read A :=
  if Js.inherited k then FromPrototype (Builtin k) else Undefined.

(** The property [k] of an icon descriptor. *)
Definition iconField (i : Icon) (k : string) : option ProtoValue :=
  if String.eqb k "id" then FieldString <$> icon_id i
  else if String.eqb k "url" then FieldString <$> icon_url i
  else if String.eqb k "width" then Some (FieldNumber (icon_width i))
  else if String.eqb k "height" then Some (FieldNumber (icon_height i))
  else None.

(** The property [k] of [Object.assign({}, icon, {x, y})]. *)
Definition positionedField (p : PositionedIcon) (k : string) : option ProtoValue :=
  if String.eqb k "x" then Some (FieldNumber (pos_x p))
  else if String.eqb k "y" then Some (FieldNumber (pos_y p))
  else iconField (pos_icon p) k.

(** [mapping[k]] on a mapping of the packer.  The only writes to such a
    mapping are the assignments [mapping[id] = entry] of [buildRowMapping]:
    its binding under [__proto__], if any, is the entry that an assignment
    made its prototype, and every other binding is an own property. *)
Definition mappingGet (mapping : gmap string PositionedIcon) (k : string)
    : Read PositionedIcon :=
  match mapping !! k with
  | Some entry => Own entry
  | None =>
      match mapping !! "__proto__" ≫= (λ proto, positionedField proto k) with
      | Some v => FromPrototype v
      | None => objectPrototypeGet k
      end
  end.

(** [.url] of a truthy value read from a mapping; functions, strings,
    numbers and [Object.prototype] have no such property. *)
Definition readUrl (r : Read PositionedIcon) : Js.Val :=
  match r with
  | Own entry => Js.prop (icon_url (pos_icon entry))
  | _ => Js.VUndefined
  end.

(** The object [icons] that the differ fills: its own properties in
    insertion order and, once a record with the id [__proto__] was
    assigned, the descriptor that became its prototype. *)
Record DiffObject := mkDiff {
  diff_own : Obj.t Icon;
  diff_proto : option Icon
}.

(** [icons[k]] *)
Definition diffGet (icons : DiffObject) (k : string) : Read Icon :=
  if String.eqb k "__proto__" then
    match diff_proto icons with
    | Some proto => Own proto
    | None => objectPrototypeGet k
    end
  else
    match Obj.get (diff_own icons) k with
    | Some i => Own i
    | None =>
        match diff_proto icons ≫= (λ proto, iconField proto k) with
        | Some v => FromPrototype v
        | None => objectPrototypeGet k
        end
    end.

(** [icons[k] = icon] *)
Definition diffSet (icons : DiffObject) (k : string) (icon : Icon) : DiffObject :=
  if String.eqb k "__proto__" then mkDiff (diff_own icons) (Some icon)
  else mkDiff (Obj.set (diff_own icons) k icon) (diff_proto icons).

(** ** Icon differ *)

Section Differ.

Context {Point : Type}.

(** The body of the loop of [getDiffIcons] for one extracted [icon]:
    the two guards, then the test that decides whether [icons[id] = icon]
    runs.  Only a descriptor passes the guards. *)
Definition diffIcon (cachedIcons : option (gmap string PositionedIcon))
    (icons : DiffObject) (icon : IconVal) : Result DiffObject :=
  let id := Js.toPropertyKey (getIconId icon) in
  if negb (iconval_truthy icon) then Throw IconMissing            (* !icon *)
  else if negb (Js.truthy (iconUrl icon)) then Throw IconUrlMissing  (* !icon.url *)
  else
    match icon with
    | IObject i =>
        if negb (readTruthy (diffGet icons id))
        then Return (diffSet icons id i)                 (* !icons[id] *)
        else
          match cachedIcons with
          | None => Throw TypeError                      (* undefined[id] *)
          | Some cachedMapping =>
              let cachedIcon := mappingGet cachedMapping id in
              if negb (readTruthy cachedIcon)
              then Return (diffSet icons id i)           (* !cachedIcons[id] *)
              else
                (* !icon.url !== cachedIcons[id].url *)
                if Js.strict_neq (Js.not (iconUrl icon)) (readUrl cachedIcon)
                then Return (diffSet icons id i)
                else Return icons
          end
    | _ => Throw IconUrlMissing      (* not reached: see the guards *)
    end.

(** [for (const point of data) { ... }] *)
Fixpoint diffLoop (getIcon : Point → IconVal)
    (cachedIcons : option (gmap string PositionedIcon))
    (data : list Point) (icons : DiffObject) : Result DiffObject :=
  match data with
  | [] => Return icons
  | point :: rest =>
      match diffIcon cachedIcons icons (getIcon point) with
      | Return icons' => diffLoop getIcon cachedIcons rest icons'
      | Throw e => Throw e
      end
  end.

(** [getDiffIcons(data, getIcon, cachedIcons)]; [None] in the result is the
    [null] returned when [data] or [getIcon] is missing.  The object that is
    returned is given by its own properties, which is all that
    [Object.values], the one consumer of the result, enumerates. *)
Definition getDiffIcons (data : option (list Point))
    (getIcon : option (Point → IconVal))
    (cachedIcons : option (gmap string PositionedIcon))
    : Result (option (Obj.t Icon)) :=
  match data, getIcon with
  | Some points, Some f =>
      match diffLoop f cachedIcons points (mkDiff Obj.empty None) with
      | Return icons => Return (Some (diff_own icons))
      | Throw e => Throw e
      end
  | _, _ => Return None
  end.

End Differ.

(** ** Atlas cache *)

(** Modelled from the spec: the class [LRUCache] of
    [../text-layer/lru-cache], which the module imports and whose source is
    not part of this development.  Section 4.3 of the specification: [get]
    returns the state or nothing and touches a present entry; [set] inserts
    or replaces and touches; [delete] removes; when [set] of a new key would
    exceed the capacity, the least recently touched entry is evicted first.
    The entries are kept least recently touched first. *)
Module LRUCache.
Section Cache.

Context {K V : Type} `{EqDecision K}.

Record t := mk {
  limit : nat;
  entries : list (K * V)
}.

Definition new (limit : nat) : t := mk limit [].

Fixpoint find (k : K) (l : list (K * V)) : option V :=
  match l with
  | [] => None
  | (k', v) :: rest => if decide (k' = k) then Some v else find k rest
  end.

Fixpoint remove (k : K) (l : list (K * V)) : list (K * V) :=
  match l with
  | [] => []
  | (k', v) :: rest =>
      if decide (k' = k) then remove k rest else (k', v) :: remove k rest
  end.

(** The value under [k], without touching the entry (an observation of
    the cache, not one of its operations). *)
Definition peek (c : t) (k : K) : option V := find k (entries c).

Definition get (c : t) (k : K) : option V * t :=
  match find k (entries c) with
  | Some v => (Some v, mk (limit c) (remove k (entries c) ++ [(k, v)]))
  | None => (None, c)
  end.

Definition set (c : t) (k : K) (v : V) : t :=
  match find k (entries c) with
  | Some _ => mk (limit c) (remove k (entries c) ++ [(k, v)])
  | None =>
      let kept :=
        if (limit c <=? length (entries c))%nat then tail (entries c)
        else entries c in
      mk (limit c) (kept ++ [(k, v)])
  end.

Definition delete (c : t) (k : K) : t := mk (limit c) (remove k (entries c)).

End Cache.
Arguments t : clear implicits.
End LRUCache.

(** ** Atlas state and the world the manager acts on *)

(** An owning context ([gl]) is an opaque identity. *)
Definition Context := nat.

(** The backing surface, a [Texture2D]; only its size matters here. *)
Record Texture := mkTexture {
  tex_width : N;
  tex_height : N
}.

(** The object cached per context.  The constructor commits
    [{mapping, xOffset, yOffset, canvasWidth, canvasHeight}] and the updater
    commits [{mapping, texture, xOffset, yOffset, canvasHeight}]: [texture]
    and [canvasWidth] are properties that may be absent. *)
Record AtlasState := mkAtlas {
  st_mapping : gmap string PositionedIcon;
  st_texture : option Texture;
  st_xOffset : N;
  st_yOffset : N;
  st_canvasWidth : option N;
  st_canvasHeight : N
}.

(** Requests to the surface collaborator.  [LoadIcon] is the asynchronous
    decode, resample and [setSubImageData] that [_loadIcons] schedules for
    one icon. *)
Inductive SurfaceOp :=
| CreateTexture (width height : N)
| ResizeTexture (width height : N)
| LoadIcon (icon : Icon).

(** The module-level [cached], the number of [onUpdate] notifications
    emitted so far, and the surface requests issued so far. *)
Record World := mkWorld {
  cached : LRUCache.t Context AtlasState;
  notifications : nat;
  surfaceOps : list SurfaceOp
}.

(** [const cached = new LRUCache(3)] *)
Definition initialWorld : World := mkWorld (LRUCache.new 3) 0 [].

(** Computations of the manager: they read and write the world and may
    throw; the world at the throw is kept. *)
Definition M (A : Type) : Type := World → Result A * World.

#[global] Instance M_ret : MRet M := λ A a w, (Return a, w).

#[global] Instance M_bind : MBind M := λ A B f m w,
  match m w with
  | (Return a, w') => f a w'
  | (Throw e, w') => (Throw e, w')
  end.

(** [throw new Error(...)], or the [TypeError] of the runtime. *)
Definition throw {A : Type} (e : Error) : M A := λ w, (Throw e, w).

(** The result of a function that does not touch the world. *)
Definition lift {A : Type} (r : Result A) : M A := λ w, (r, w).

(** [cached.get(gl)] *)
Definition cachedGet (gl : Context) : M (option AtlasState) :=
  λ w, let (v, c) := LRUCache.get (cached w) gl in
       (Return v, mkWorld c (notifications w) (surfaceOps w)).

(** [cached.set(gl, st)] *)
Definition cachedSet (gl : Context) (st : AtlasState) : M unit :=
  λ w, (Return tt, mkWorld (LRUCache.set (cached w) gl st) (notifications w) (surfaceOps w)).

(** [this.onUpdate()] *)
Definition onUpdate : M unit :=
  λ w, (Return tt, mkWorld (cached w) (S (notifications w)) (surfaceOps w)).

(** Requests to the surface collaborator are recorded in order. *)
Definition surface (ops : list SurfaceOp) : M unit :=
  λ w, (Return tt, mkWorld (cached w) (notifications w) (surfaceOps w ++ ops)).

(** ** The icon manager *)

(** An entry of a pre-packed, user-supplied [iconMapping]. *)
Record UserEntry := mkUserEntry {
  ue_x : N;
  ue_y : N;
  ue_width : N;
  ue_height : N;
  ue_mask : bool
}.

(** What [getIconMapping] returns: an entry of the cached mapping, an entry
    of the user's mapping, a truthy value that the mapping inherits from
    its prototype, or the fresh empty object [{}]. *)
Inductive MappingEntry :=
| Packed (p : PositionedIcon)
| Supplied (e : UserEntry)
| InheritedValue (v : ProtoValue)
| EmptyObject.

(** [this._mapping[k]] on the supplied mapping, a plain object that is given
    by its own properties and has [Object.prototype] as its prototype. *)
Definition userMappingGet (userMapping : gmap string UserEntry) (k : string)
    : Read UserEntry :=
  match userMapping !! k with
  | Some entry => Own entry
  | None => objectPrototypeGet k
  end.

(** [read || {}] *)
Definition orEmptyObject {A : Type} (entry : A → MappingEntry) (r : Read A)
    : MappingEntry :=
  match r with
  | Own a => entry a
  | FromPrototype v => if protoTruthy v then InheritedValue v else EmptyObject
  | Undefined => EmptyObject
  end.

Section Manager.

Context {Point : Type}.

(** The fields of an [IconManager] that the modelled methods read. *)
Record IconManager := mkManager {
  gl : Context;
  _getIcon : option (Point → IconVal);
  _texture : option Texture;
  _mapping : option (gmap string UserEntry);
  _autoPacking : bool
}.

(** [new IconManager(gl, {onUpdate})] *)
Definition constructor (gl : Context) : M IconManager :=
  cachedSet gl (mkAtlas ∅ None 0 0 (Some 0) 0);;
  mret (mkManager gl None None None false).

(** The property key of [icon] in [this._mapping[icon]]. *)
Definition iconValKey (icon : IconVal) : string :=
  match icon with
  | IUndefined => "undefined"
  | INull => "null"
  | IString s => s
  | IObject _ => "[object Object]"
  end.

(** [getIconMapping(dataPoint)] *)
Definition getIconMapping (this : IconManager) (dataPoint : Point) : M MappingEntry :=
  match _getIcon this with
  | None => throw TypeError                       (* this._getIcon is null *)
  | Some getIcon =>
      let icon := getIcon dataPoint in
      if _autoPacking this then
        let id := getIconId icon in
        cachedData ← cachedGet (gl this);
        match cachedData with
        | None => throw TypeError                 (* undefined.mapping *)
        | Some st =>
            mret (orEmptyObject Packed
                    (mappingGet (st_mapping st) (Js.toPropertyKey id)))
        end
      else
        match _mapping this with
        | None => throw TypeError                 (* null[icon] *)
        | Some userMapping =>
            mret (orEmptyObject Supplied
                    (userMappingGet userMapping (iconValKey icon)))
        end
  end.

(** [_resizeTexture(texture, width, height)]: the texture object is
    resized in place and returned. *)
Definition _resizeTexture (texture : Texture) (width height : N) : M Texture :=
  surface [ResizeTexture width height];;
  mret (mkTexture width height).

(** [_loadIcons(icons, texture)]: one asynchronous load and write per
    icon.  The canvas it draws with exists: [setProps] creates
    [this._canvas] before it calls the updater. *)
Definition _loadIcons (icons : list Icon) (texture : Texture) : M unit :=
  surface (map LoadIcon icons).

(** [_updateAutoPacking({data, buffer, maxCanvasWidth})].  [buildMapping]
    writes into the cached mapping object itself and the updater stores
    that same object back, so passing the mapping by value agrees with the
    source on every path that reaches [cached.set]. *)
Definition _updateAutoPacking (this : IconManager) (data : option (list Point))
    (buffer maxCanvasWidth : N) : M unit :=
  cachedData ← cachedGet (gl this);
  diff ← lift (getDiffIcons data (_getIcon this) (st_mapping <$> cachedData));
  let icons := Obj.values (default Obj.empty diff) in
  match icons with
  | [] => mret tt
  | _ :: _ =>
      let r := buildMapping icons buffer
                 (st_mapping <$> cachedData)
                 (st_xOffset <$> cachedData)
                 (st_yOffset <$> cachedData)
                 maxCanvasWidth in
      texture ← match cachedData ≫= st_texture with
                 | Some texture => mret texture
                 | None =>
                     surface [CreateTexture maxCanvasWidth (canvasHeight r)];;
                     mret (mkTexture maxCanvasWidth (canvasHeight r))
                 end;
      texture ← (if decide (tex_height texture = canvasHeight r)
                  then mret texture
                  else _resizeTexture texture (tex_width texture) (canvasHeight r));
      cachedSet (gl this)
        (mkAtlas (mapping r) (Some texture) (xOffset r) (yOffset r) None (canvasHeight r));;
      onUpdate;;
      _loadIcons icons texture
  end.

End Manager.
Arguments IconManager : clear implicits.

(** ** Notions used to state the properties *)

(** The exact boxes [x, x+width) x [y, y+height) of two committed icons
    intersect. *)
Definition overlaps (p q : PositionedIcon) : bool :=
  (pos_x p <? pos_x q + icon_width (pos_icon q)) &&
  (pos_x q <? pos_x p + icon_width (pos_icon p)) &&
  (pos_y p <? pos_y q + icon_height (pos_icon q)) &&
  (pos_y q <? pos_y p + icon_height (pos_icon p)).

(** The height of a row: the largest height among the icons queued for it. *)
Definition shelfHeight (columns : list Column) : N :=
  foldr (λ c h, N.max h (icon_height (col_icon c))) 0 columns.

(** What the packer's loop keeps true of its state while no icon has id
    [k]: the binding of [k] is the one of the mapping [m0] it started from,
    and no queued column is for [k]. *)
Definition untouched (k : string) (m0 : gmap string PositionedIcon) (st : PackState) : Prop :=
  pk_mapping st !! k = m0 !! k ∧
  Forall (λ c, iconKey (col_icon c) ≠ k) (pk_columns st).

(** The entry that [buildRowMapping] commits for a column at [y]. *)
Definition committed (y : N) (c : Column) : PositionedIcon :=
  mkPositioned (col_icon c) (col_xOffset c) y.

(** The columns of a row, left to right, do not run into each other. *)
Fixpoint columnsApart (columns : list Column) : Prop :=
  match columns with
  | [] => True
  | c :: rest =>
      Forall (λ d, col_xOffset c + icon_width (col_icon c) ≤ col_xOffset d) rest ∧
      columnsApart rest
  end.

(** No two entries of a mapping under different ids overlap. *)
Definition noOverlap (m : gmap string PositionedIcon) : Prop :=
  ∀ k1 k2 p q, k1 ≠ k2 → m !! k1 = Some p → m !! k2 = Some q → overlaps p q = false.

(** Every entry of a mapping ends at or above the line [y]. *)
Definition endsAbove (y : N) (m : gmap string PositionedIcon) : Prop :=
  ∀ k p, m !! k = Some p → pos_y p + icon_height (pos_icon p) ≤ y.

(** The invariant of the packer's loop within one call. *)
Definition wellPacked (st : PackState) : Prop :=
  noOverlap (pk_mapping st) ∧
  endsAbove (pk_yOffset st) (pk_mapping st) ∧
  columnsApart (pk_columns st) ∧
  Forall (λ c, col_xOffset c + icon_width (col_icon c) ≤ pk_xOffset st ∧
               icon_height (col_icon c) ≤ pk_rowHeight st) (pk_columns st).

(** The world after [cached.get(gl)]: the entry of [gl], if any, is the most
    recently touched one. *)
Definition touched (gl : Context) (w : World) : World :=
  mkWorld (LRUCache.get (cached w) gl).2 (notifications w) (surfaceOps w).

(** The state of a context, observed without touching the cache. *)
Definition atlasOf (w : World) (gl : Context) : option AtlasState :=
  LRUCache.peek (cached w) gl.

(** ** The properties that the code does not have, as they are stated *)

Section Stated.

Context {Point : Type}.

(** An update never moves a committed icon: whatever entry the id has
    afterwards is at the position it had before. *)
Definition position_kept (this : IconManager Point) (w : World)
    (data : option (list Point)) (buffer maxCanvasWidth : N) (id : string) : Prop :=
  ∀ st p st' p',
    atlasOf w (gl this) = Some st →
    st_mapping st !! id = Some p →
    atlasOf (_updateAutoPacking this data buffer maxCanvasWidth w).2 (gl this) = Some st' →
    st_mapping st' !! id = Some p' →
    pos_x p' = pos_x p ∧ pos_y p' = pos_y p.

(** An update with a non-empty diff commits a state that has a
    [canvasWidth], equal to [maxCanvasWidth]. *)
Definition commits_canvasWidth (this : IconManager Point) (w : World)
    (data : option (list Point)) (buffer maxCanvasWidth : N) : Prop :=
  ∀ diff,
    getDiffIcons data (_getIcon this) (st_mapping <$> atlasOf w (gl this)) = Return diff →
    Obj.values (default Obj.empty diff) ≠ [] →
    ∃ st',
      atlasOf (_updateAutoPacking this data buffer maxCanvasWidth w).2 (gl this) = Some st' ∧
      st_canvasWidth st' = Some maxCanvasWidth.

(** Constructing a manager for a context that has a cached state leaves
    that state as it is. *)
Definition construction_keeps_state (gl : Context) (w : World) : Prop :=
  ∀ st,
    atlasOf w gl = Some st →
    atlasOf (constructor (Point := Point) gl w).2 gl = Some st.

(** A data point whose icon has no entry in the active mapping is answered
    with the empty object. *)
Definition missing_entry_gives_empty (this : IconManager Point) (w : World)
    (dataPoint : Point) : Prop :=
  ∀ getIcon,
    _getIcon this = Some getIcon →
    (if _autoPacking this
     then ∃ st, atlasOf w (gl this) = Some st ∧
                st_mapping st !! Js.toPropertyKey (getIconId (getIcon dataPoint)) = None
     else ∃ userMapping, _mapping this = Some userMapping ∧
                         userMapping !! iconValKey (getIcon dataPoint) = None) →
    (getIconMapping this dataPoint w).1 = Return EmptyObject.

End Stated.

(** The height of the shelf whose top is [y]: the largest height among the
    entries of the mapping that were committed at [y]. *)
Definition shelfHeightAt (m : gmap string PositionedIcon) (y : N) : N :=
  map_fold (λ _ p h, if pos_y p =? y then N.max h (icon_height (pos_icon p)) else h) 0 m.

(** ** A running example

    A manager for context [7] in auto-packing mode whose records are the
    extracted icons themselves, and the world after its construction and
    after a first update with the single icon [a/url1]. *)

Definition iconA1 : Icon := mkIcon (Some "a") (Some "url1") 40 20.
Definition iconA2 : Icon := mkIcon (Some "a") (Some "url2") 40 20.

Definition exampleManager : IconManager IconVal :=
  mkManager 7%nat (Some (λ icon, icon)) None None true.

Definition worldConstructed : World :=
  (constructor (Point := IconVal) 7%nat initialWorld).2.

Definition worldPacked : World :=
  (_updateAutoPacking exampleManager (Some [IObject iconA1])
     DEFAULT_BUFFER MAX_CANVAS_WIDTH worldConstructed).2.

(** ** The rest of the module: textures, props and image loads *)

(** An image decoded by [loadImage]; only its natural size matters. *)
Record Image := mkImage {
  naturalWidth : N;
  naturalHeight : N
}.

(** The canvas of the 2d context that [resizeImage] draws on. *)
Record Canvas := mkCanvas {
  canvas_width : N;
  canvas_height : N
}.

(** What [resizeImage] returns and [setSubImageData] uploads: the decoded
    image itself, or the canvas the image was drawn on. *)
Inductive PixelSource :=
| FromImage (imageData : Image)
| FromCanvas (canvas : Canvas).

Definition sourceSize (source : PixelSource) : N * N :=
  match source with
  | FromImage imageData => (naturalWidth imageData, naturalHeight imageData)
  | FromCanvas canvas => (canvas_width canvas, canvas_height canvas)
  end.

(** [resizeImage(ctx, imageData, width, height)]: the image as it is when it
    has the requested size; otherwise [ctx.canvas] is given that size, the
    image is drawn on all of it, and the canvas is returned.  The second
    component is [ctx.canvas] after the call. *)
Definition resizeImage (canvas : Canvas) (imageData : Image) (width height : N)
    : PixelSource * Canvas :=
  if (width =? naturalWidth imageData) && (height =? naturalHeight imageData)
  then (FromImage imageData, canvas)
  else (FromCanvas (mkCanvas width height), mkCanvas width height).

(** The region argument of [texture.setSubImageData]; [y] counts rows from
    the bottom of the texture and is a difference, so it is an integer. *)
Record SubImage := mkSubImage {
  sub_x : N;
  sub_y : Z;
  sub_width : N;
  sub_height : N
}.

(** What the callback of an icon load hands to [texture.setSubImageData]:
    a region, the pixels for it and the canvas after the call; or, when the
    value read under the icon's id is not an entry, an argument whose [x],
    [width] and [height] are [undefined]. *)
Inductive IconWrite :=
| WriteRegion (region : SubImage) (pixels : PixelSource) (canvas' : Canvas)
| WriteUndefined.

(** The region into which [_resizeTexture] copies the old pixels:
    [{x: 0, y: height - oldHeight, width: oldWidth, height: oldHeight}]. *)
Definition resizeCopyRegion (texture : Texture) (height : N) : SubImage :=
  mkSubImage 0 (Z.of_N height - Z.of_N (tex_height texture))
             (tex_width texture) (tex_height texture).

(** The values of the [iconAtlas] prop that the module tells apart: a
    [Texture2D] instance, a string, anything else that is truthy. *)
Inductive IconAtlas :=
| AtlasTexture (texture : Texture)
| AtlasUrl (url : string)
| AtlasOther.

Section ManagerRest.

Context {Point : Type}.

(** The argument of [setProps]; [None] is [undefined]. *)
Record Props := mkProps {
  p_autoPacking : option bool;
  p_iconAtlas : option IconAtlas;
  p_iconMapping : option (gmap string UserEntry);
  p_data : option (list Point);
  p_getIcon : option (Point → IconVal)
}.

(** [getTexture()] *)
Definition getTexture (this : IconManager Point) : M (option Texture) :=
  if _autoPacking this then
    cachedData ← cachedGet (gl this);
    match cachedData with
    | None => throw TypeError                   (* undefined.texture *)
    | Some st => mret (st_texture st)
    end
  else mret (_texture this).

(** [_updateIconAtlas(iconAtlas)], up to its return: a [Texture2D] becomes
    [this._texture] and the layer is notified; for a string the image load
    is only started; anything else is ignored.  The manager in the result is
    [this] after the call. *)
Definition _updateIconAtlas (this : IconManager Point) (iconAtlas : IconAtlas)
    (w : World) : IconManager Point * World :=
  match iconAtlas with
  | AtlasTexture texture =>
      (mkManager (gl this) (_getIcon this) (Some texture) (_mapping this) (_autoPacking this),
       (onUpdate w).2)
  | AtlasUrl _ => (this, w)
  | AtlasOther => (this, w)
  end.

(** The callback of [loadImage(iconAtlas).then(...)]: a texture is created
    from the decoded image, stored in [this._texture], and the layer is
    notified. *)
Definition iconAtlasLoaded (this : IconManager Point) (imageData : Image)
    (w : World) : IconManager Point * World :=
  let texture := mkTexture (naturalWidth imageData) (naturalHeight imageData) in
  (mkManager (gl this) (_getIcon this) (Some texture) (_mapping this) (_autoPacking this),
   (onUpdate (surface [CreateTexture (tex_width texture) (tex_height texture)] w).2).2).

(** The three assignments that open [setProps]: a prop that is [undefined]
    (for [autoPacking]) or falsy (for [getIcon] and [iconMapping]) leaves
    the field as it was. *)
Definition assignProps (props : Props) (this : IconManager Point) : IconManager Point :=
  mkManager (gl this)
            (match p_getIcon props with Some f => Some f | None => _getIcon this end)
            (_texture this)
            (match p_iconMapping props with Some m => Some m | None => _mapping this end)
            (default (_autoPacking this) (p_autoPacking props)).

(** [if (iconAtlas)]: the empty string is falsy. *)
Definition atlasGiven (iconAtlas : option IconAtlas) : option IconAtlas :=
  match iconAtlas with
  | Some (AtlasUrl url) => if String.eqb url EmptyString then None else iconAtlas
  | _ => iconAtlas
  end.

(** [setProps({autoPacking, iconAtlas, iconMapping, data, getIcon})].  The
    result holds what the call returns or throws, the manager [this] after
    it (the fields are assigned before the updater can throw) and the world
    after it.  The updater runs with [DEFAULT_BUFFER] and
    [MAX_CANVAS_WIDTH]; the canvas created before it is not modelled. *)
Definition setProps (props : Props) (this : IconManager Point) (w : World)
    : Result unit * IconManager Point * World :=
  let this1 := assignProps props this in
  let '(this2, w2) :=
    match atlasGiven (p_iconAtlas props) with
    | Some iconAtlas => _updateIconAtlas this1 iconAtlas w
    | None => (this1, w)
    end in
  if _autoPacking this2 && (bool_decide (is_Some (p_data props)) ||
                            bool_decide (is_Some (p_getIcon props)))
  then
    let '(r, w3) := _updateAutoPacking this2 (p_data props)
                      DEFAULT_BUFFER MAX_CANVAS_WIDTH w2 in
    (r, this2, w3)
  else (Return tt, this2, w2).

(** The callback of [loadImage(icon.url).then(...)] in [_loadIcons], for one
    [icon]: the entry of the icon is read from the cached mapping as it is
    when the image arrives, the image is resized to the entry's size, and the
    pixels are written at the entry's position with [y] flipped against
    [canvasHeight], the height the texture had when the load was scheduled.
    Destructuring [undefined] throws.  A value that the mapping inherits is
    destructured without an error, into four times [undefined], and the
    callback goes on to write and to notify with these.  The collaborators
    are taken not to throw. *)
Definition iconLoaded (this : IconManager Point) (canvasHeight : N) (canvas : Canvas)
    (icon : Icon) (imageData : Image) : M IconWrite :=
  let id := getIconId (IObject icon) in
  cachedData ← cachedGet (gl this);
  match cachedData with
  | None => throw TypeError                     (* undefined.mapping *)
  | Some st =>
      match mappingGet (st_mapping st) (Js.toPropertyKey id) with
      | Undefined => throw TypeError            (* destructuring undefined *)
      | FromPrototype _ =>
          onUpdate;;
          mret WriteUndefined
      | Own entry =>
          let width := icon_width (pos_icon entry) in
          let height := icon_height (pos_icon entry) in
          let '(pixels, canvas') := resizeImage canvas imageData width height in
          onUpdate;;
          mret (WriteRegion
                  (mkSubImage (pos_x entry)
                              (Z.of_N canvasHeight - Z.of_N (pos_y entry) - Z.of_N height)
                              width height)
                  pixels canvas')
      end
  end.

End ManagerRest.
Arguments Props : clear implicits.

(** ** Further notions used to state properties of the packer *)

(** Every icon of [seen] is queued in the current row or has an entry under
    its id that was made from an icon of [seen] with that id; the queued
    columns hold icons of [seen]. *)
Definition covered (seen : list Icon) (st : PackState) : Prop :=
  Forall (λ c, col_icon c ∈ seen) (pk_columns st) ∧
  ∀ icon, icon ∈ seen →
    (∃ c, c ∈ pk_columns st ∧ iconKey (col_icon c) = iconKey icon) ∨
    (∃ p, pk_mapping st !! iconKey icon = Some p ∧
          iconKey (pos_icon p) = iconKey icon ∧ pos_icon p ∈ seen).

(** Every entry of a mapping was in [m0] or was made from an icon of
    [seen] under that icon's id. *)
Definition originates (m0 : gmap string PositionedIcon) (seen : list Icon)
    (m : gmap string PositionedIcon) : Prop :=
  ∀ k p, m !! k = Some p →
    m0 !! k = Some p ∨ (iconKey (pos_icon p) = k ∧ pos_icon p ∈ seen).

(** The id under which the differ files a record:
    [getIconId(getIcon(point))] as a property key. *)
Definition recordId {Point : Type} (getIcon : Point → IconVal) (point : Point) : string :=
  Js.toPropertyKey (getIconId (getIcon point)).

(** A record yields a descriptor that has a url: it passes both guards of
    the differ. *)
Definition wellFormed {Point : Type} (getIcon : Point → IconVal) (point : Point) : Prop :=
  ∃ i, getIcon point = IObject i ∧ Js.truthy (Js.prop (icon_url i)) = true.

(** An entry starts a row or ends, with its buffer, within the width. *)
Definition fitsWidth (buffer maxCanvasWidth : N) (m : gmap string PositionedIcon) : Prop :=
  ∀ k p, m !! k = Some p →
    pos_x p = 0 ∨ pos_x p + icon_width (pos_icon p) + buffer ≤ maxCanvasWidth.


(** * Properties *)

(** ** Geometry *)

Lemma nextPowOfTwo_least (n : N) :
  0 < n →
  ∃ k, nextPowOfTwo n = 2 ^ k ∧ n ≤ 2 ^ k ∧ ∀ j, n ≤ 2 ^ j → k ≤ j.
Proof.
  intros Hn. exists (N.log2_up n).
  unfold nextPowOfTwo.
  destruct (N.eqb_spec n 0) as [-> | _]; [lia |].
  split; [reflexivity |].
  destruct (decide (n = 1)) as [-> | Hne].
  - cbn. split; [lia | intros; lia].
  - assert (1 < n) as H1 by lia.
    destruct (N.log2_up_spec n H1) as [Hlo Hhi].
    split; [exact Hhi |].
    intros j Hj.
    destruct (N.le_gt_cases (N.log2_up n) j) as [Hle | Hgt]; [exact Hle |].
    exfalso.
    assert (2 ^ j ≤ 2 ^ N.pred (N.log2_up n)) by (apply N.pow_le_mono_r; lia).
    lia.
Qed.

(** ** Shelf packer *)

Section Packer.

Variables buffer maxCanvasWidth : N.

(** The two branches of one iteration, as equations. *)
Lemma packIcon_fits mapping columns x y h icon :
  x + icon_width icon + buffer ≤ maxCanvasWidth →
  packIcon buffer maxCanvasWidth (mkPack mapping columns x y h) icon
  = mkPack mapping (columns ++ [mkColumn icon x]) (x + icon_width icon + buffer) y
           (N.max h (icon_height icon)).
Proof.
  intros Hfit. unfold packIcon. cbn [pk_xOffset].
  destruct (N.ltb_spec maxCanvasWidth (x + icon_width icon + buffer)); [lia | reflexivity].
Qed.

Lemma packIcon_wraps mapping columns x y h icon :
  maxCanvasWidth < x + icon_width icon + buffer →
  packIcon buffer maxCanvasWidth (mkPack mapping columns x y h) icon
  = mkPack (buildRowMapping mapping columns y) [mkColumn icon 0]
           (0 + icon_width icon + buffer) (h + y + buffer)
           (N.max 0 (icon_height icon)).
Proof.
  intros Hwrap. unfold packIcon. cbn [pk_xOffset].
  destruct (N.ltb_spec maxCanvasWidth (x + icon_width icon + buffer)); [reflexivity | lia].
Qed.

Lemma shelfHeight_app columns c :
  shelfHeight (columns ++ [c]) = N.max (shelfHeight columns) (icon_height (col_icon c)).
Proof.
  induction columns as [| c' columns IH]; cbn; [lia |].
  unfold shelfHeight in IH. rewrite IH. lia.
Qed.

(** [rowHeight] is the height of the row being filled. *)
Lemma packIcon_rowHeight st icon :
  pk_rowHeight st = shelfHeight (pk_columns st) →
  pk_rowHeight (packIcon buffer maxCanvasWidth st icon)
  = shelfHeight (pk_columns (packIcon buffer maxCanvasWidth st icon)).
Proof.
  intros Hinv. unfold packIcon.
  destruct (maxCanvasWidth <? _); cbn [pk_rowHeight pk_columns];
    rewrite shelfHeight_app; cbn [col_icon]; [reflexivity |].
  by rewrite Hinv.
Qed.

Lemma packLoop_rowHeight icons st :
  pk_rowHeight st = shelfHeight (pk_columns st) →
  pk_rowHeight (packLoop buffer maxCanvasWidth st icons)
  = shelfHeight (pk_columns (packLoop buffer maxCanvasWidth st icons)).
Proof.
  revert st. induction icons as [| icon icons IH]; intros st Hinv; [exact Hinv |].
  cbn. apply IH, packIcon_rowHeight, Hinv.
Qed.

End Packer.

(** C6.  A call of [buildMapping] that resumes a shelf computes the canvas
    height from the heights of its own icons only.  The first call commits
    the 10x100 icon [a] at (0,0) and returns the cursor (14,0); the second
    call, resumed from there with the 10x10 icon [d], puts [d] on the same
    shelf at (14,0).  The last shelf has its top at 0 and is 100 tall, which
    asks for the canvas height 128; the second call returns 16. *)
Theorem buildMapping_resumed_canvasHeight :
  let a := mkIcon (Some "a") (Some "a.png") 10 100 in
  let d := mkIcon (Some "d") (Some "d.png") 10 10 in
  let first := buildMapping [a] 4 None None None 100 in
  let second := buildMapping [d] 4 (Some (mapping first))
                  (Some (xOffset first)) (Some (yOffset first)) 100 in
  (xOffset first, yOffset first, canvasHeight first) = (14, 0, 128) ∧
  mapping second !! "a" = Some (mkPositioned a 0 0) ∧
  mapping second !! "d" = Some (mkPositioned d 14 0) ∧
  yOffset second = 0 ∧
  shelfHeightAt (mapping second) (yOffset second) = 100 ∧
  nextPowOfTwo (shelfHeightAt (mapping second) (yOffset second) + yOffset second + 4) = 128 ∧
  canvasHeight second = 16.
Proof. vm_compute. repeat split. Qed.

(** C4.  Three 40x20 icons with distinct ids, buffer 4, maximal width 100,
    packed from the empty mapping at cursor (0,0): the first two are placed
    at (0,0) and (44,0), the third opens a new row at (0,24), and the canvas
    height is 64. *)
Theorem buildMapping_packing_example (i1 i2 i3 : Icon) :
  icon_width i1 = 40 → icon_height i1 = 20 →
  icon_width i2 = 40 → icon_height i2 = 20 →
  icon_width i3 = 40 → icon_height i3 = 20 →
  iconKey i1 ≠ iconKey i2 → iconKey i1 ≠ iconKey i3 → iconKey i2 ≠ iconKey i3 →
  let r := buildMapping [i1; i2; i3] 4 (Some ∅) (Some 0) (Some 0) 100 in
  mapping r !! iconKey i1 = Some (mkPositioned i1 0 0) ∧
  mapping r !! iconKey i2 = Some (mkPositioned i2 44 0) ∧
  mapping r !! iconKey i3 = Some (mkPositioned i3 0 24) ∧
  canvasHeight r = 64.
Proof.
  intros W1 H1 W2 H2 W3 H3 N12 N13 N23 r.
  subst r. unfold buildMapping, packLoop, packInit.
  cbn [fold_left from_option id].
  rewrite packIcon_fits by lia. rewrite W1, H1.
  rewrite packIcon_fits by lia. rewrite W2, H2.
  rewrite packIcon_wraps by lia. rewrite W3, H3.
  cbn [mapping canvasHeight packFlush pk_columns pk_mapping pk_yOffset pk_rowHeight
       buildRowMapping app col_icon col_xOffset].
  repeat split; try (simplify_map_eq; reflexivity).
Qed.

Lemma buildMapping_packing_example_witness :
  let i1 := mkIcon (Some "a") (Some "a.png") 40 20 in
  let i2 := mkIcon (Some "b") (Some "b.png") 40 20 in
  let i3 := mkIcon None (Some "c.png") 40 20 in
  let r := buildMapping [i1; i2; i3] 4 (Some ∅) (Some 0) (Some 0) 100 in
  mapping r !! "a" = Some (mkPositioned i1 0 0) ∧
  mapping r !! "b" = Some (mkPositioned i2 44 0) ∧
  mapping r !! "c.png" = Some (mkPositioned i3 0 24) ∧
  canvasHeight r = 64.
Proof.
  intros i1 i2 i3.
  apply (buildMapping_packing_example i1 i2 i3); try reflexivity; discriminate.
Defined.

(** ** Ordered objects *)

Section ObjFacts.

Context {A : Type}.
Implicit Types (o : Obj.t A) (k : string) (v : A).

Lemma obj_get_set_eq o k v : Obj.get (Obj.set o k v) k = Some v.
Proof.
  induction o as [| [k' v'] o IH]; cbn.
  - by rewrite String.eqb_refl.
  - destruct (String.eqb_spec k' k) as [-> | Hne]; cbn.
    + by rewrite String.eqb_refl.
    + destruct (String.eqb_spec k' k); [done | exact IH].
Qed.

Lemma obj_get_set_ne o k k' v : k ≠ k' → Obj.get (Obj.set o k v) k' = Obj.get o k'.
Proof.
  intros Hne. induction o as [| [k0 v0] o IH]; cbn.
  - destruct (String.eqb_spec k k'); [done | reflexivity].
  - destruct (String.eqb_spec k0 k) as [-> | Hk]; cbn.
    + destruct (String.eqb_spec k k'); [done | reflexivity].
    + destruct (String.eqb_spec k0 k'); [reflexivity | exact IH].
Qed.

(** An assignment adds or replaces one binding and nothing else. *)
Lemma obj_elem_of_set o k v k' v' :
  (k', v') ∈ Obj.set o k v → (k', v') ∈ o ∨ (k' = k ∧ v' = v).
Proof.
  induction o as [| [k0 v0] o IH]; cbn.
  - intros Hin%list_elem_of_singleton. injection Hin as -> ->. by right.
  - destruct (String.eqb_spec k0 k) as [-> | Hk].
    + intros [Hin | Hin]%elem_of_cons.
      * injection Hin as -> ->. by right.
      * left. by apply elem_of_cons; right.
    + intros [Hin | Hin]%elem_of_cons.
      * left. apply elem_of_cons. by left.
      * destruct (IH Hin) as [? | ?]; [left | by right].
        by apply elem_of_cons; right.
Qed.

Lemma elem_of_insertIndexed n v (l : list (N * A)) x :
  x ∈ Obj.insertIndexed n v l → x = (n, v) ∨ x ∈ l.
Proof.
  induction l as [| [m w] l IH]; cbn.
  - intros ->%list_elem_of_singleton. by left.
  - destruct (n <? m).
    + intros [-> | Hin]%elem_of_cons; [by left | by right].
    + intros [-> | Hin]%elem_of_cons.
      * right. apply elem_of_cons. by left.
      * destruct (IH Hin) as [-> | ?]; [by left | right].
        by apply elem_of_cons; right.
Qed.

Lemma elem_of_indexed o n v :
  (n, v) ∈ Obj.indexed o → ∃ k, (k, v) ∈ o.
Proof.
  induction o as [| [k0 v0] o IH]; cbn.
  - by intros ?%elem_of_nil.
  - destruct (Obj.arrayIndex k0) as [m |].
    + intros [Heq | Hin]%elem_of_insertIndexed.
      * injection Heq as -> ->. exists k0. apply elem_of_cons. by left.
      * destruct (IH Hin) as [k Hk]. exists k. by apply elem_of_cons; right.
    + intros Hin. destruct (IH Hin) as [k Hk]. exists k. by apply elem_of_cons; right.
Qed.

Lemma elem_of_named o v : v ∈ Obj.named o → ∃ k, (k, v) ∈ o.
Proof.
  induction o as [| [k0 v0] o IH]; cbn.
  - by intros ?%elem_of_nil.
  - destruct (Obj.arrayIndex k0) as [m |].
    + intros Hin. destruct (IH Hin) as [k Hk]. exists k. by apply elem_of_cons; right.
    + intros [-> | Hin]%elem_of_cons.
      * exists k0. apply elem_of_cons. by left.
      * destruct (IH Hin) as [k Hk]. exists k. by apply elem_of_cons; right.
Qed.

(** [Object.values] enumerates values of the object and nothing else. *)
Lemma elem_of_values o v : v ∈ Obj.values o → ∃ k, (k, v) ∈ o.
Proof.
  unfold Obj.values. intros [Hin | Hin]%elem_of_app.
  - apply list_elem_of_fmap in Hin as ([n v'] & -> & Hin).
    by apply elem_of_indexed in Hin.
  - by apply elem_of_named.
Qed.

End ObjFacts.

(** ** Icon differ *)

(** The change test of the differ compares a boolean, [!icon.url], with the
    cached url, which is a string or absent: it never fails. *)
Lemma change_test_always_true (url : Js.Val) (cachedUrl : option string) :
  Js.strict_neq (Js.not url) (Js.prop cachedUrl) = true.
Proof. by destruct cachedUrl. Qed.

Lemma change_test_of_read (url : Js.Val) (r : Read PositionedIcon) :
  Js.strict_neq (Js.not url) (readUrl r) = true.
Proof. destruct r; [apply change_test_always_true | done | done]. Qed.

(** An assignment to the differ's object adds or replaces one own property
    or none. *)
Lemma diffSet_own_elem_of (icons : DiffObject) k v k' v' :
  (k', v') ∈ diff_own (diffSet icons k v) →
  (k', v') ∈ diff_own icons ∨ (k' = k ∧ v' = v ∧ k ≠ "__proto__").
Proof.
  unfold diffSet. destruct (String.eqb_spec k "__proto__") as [-> | Hne]; cbn [diff_own].
  - by left.
  - intros [? | [-> ->]]%obj_elem_of_set; [by left | by right].
Qed.

Section DifferFacts.

Context {Point : Type}.
Implicit Types (getIcon : Point → IconVal) (icons : DiffObject).

(** Against a cached mapping, every descriptor with a url is assigned,
    whatever the mapping holds. *)
Lemma diffIcon_always_assigns (cachedMapping : gmap string PositionedIcon) icons i :
  Js.truthy (Js.prop (icon_url i)) = true →
  diffIcon (Some cachedMapping) icons (IObject i) = Return (diffSet icons (iconKey i) i).
Proof.
  intros Hurl. unfold diffIcon. cbn [iconval_truthy negb iconUrl].
  rewrite Hurl. cbn [negb]. fold (iconKey i).
  destruct (negb (readTruthy (diffGet icons (iconKey i)))); [reflexivity |].
  cbv zeta.
  destruct (negb (readTruthy (mappingGet cachedMapping (iconKey i)))); [reflexivity |].
  by rewrite change_test_of_read.
Qed.

(** Whatever one step of the differ returns, it is the object it was given
    or that object with the extracted descriptor assigned under its id. *)
Lemma diffIcon_result cachedIcons icons icon icons' :
  diffIcon cachedIcons icons icon = Return icons' →
  icons' = icons ∨
  ∃ i, icon = IObject i ∧ icons' = diffSet icons (iconKey i) i.
Proof.
  unfold diffIcon.
  destruct (negb (iconval_truthy icon)); [done |].
  destruct (negb (Js.truthy (iconUrl icon))); [done |].
  destruct icon as [| | s | i]; try done.
  fold (iconKey i).
  destruct (negb (readTruthy (diffGet icons (iconKey i)))).
  - intros [= <-]. right. eauto.
  - destruct cachedIcons as [cachedMapping |]; [| done].
    cbv zeta.
    destruct (negb (readTruthy (mappingGet cachedMapping (iconKey i)))).
    + intros [= <-]. right. eauto.
    + destruct (Js.strict_neq _ _); intros [= <-]; [right | left]; eauto.
Qed.

(** Every own property of the differ's result was in the object the loop
    started from, or binds the id of a record of the batch to the
    descriptor extracted from it. *)
Lemma diffLoop_bindings getIcon cachedIcons data icons icons' k v :
  diffLoop getIcon cachedIcons data icons = Return icons' →
  (k, v) ∈ diff_own icons' →
  (k, v) ∈ diff_own icons ∨
  ∃ point, point ∈ data ∧ getIcon point = IObject v ∧ k = iconKey v.
Proof.
  revert icons. induction data as [| point data IH]; intros icons; cbn.
  - intros [= <-] Hin. by left.
  - destruct (diffIcon cachedIcons icons (getIcon point)) as [icons1 | e] eqn:Hstep; [| done].
    intros Hloop Hin.
    destruct (IH _ Hloop Hin) as [Hin1 | (p & Hp & Hget & Hk)].
    + apply diffIcon_result in Hstep as [-> | (i & Hi & ->)]; [by left |].
      apply diffSet_own_elem_of in Hin1 as [? | (-> & -> & _)]; [by left |].
      right. exists point. split; [apply elem_of_cons; by left | done].
    + right. exists p. split; [apply elem_of_cons; by right | done].
Qed.

(** The icons the updater packs all come from records of the batch. *)
Lemma getDiffIcons_values data getIcon cachedIcons diff icon :
  getDiffIcons (Some data) (Some getIcon) cachedIcons = Return (Some diff) →
  icon ∈ Obj.values diff →
  ∃ point, point ∈ data ∧ getIcon point = IObject icon.
Proof.
  unfold getDiffIcons.
  destruct (diffLoop getIcon cachedIcons data (mkDiff Obj.empty None))
    as [icons |] eqn:Hloop; [| done].
  intros [= <-] [k Hin]%elem_of_values.
  destruct (diffLoop_bindings _ _ _ _ _ _ _ Hloop Hin) as [Hnil | (p & Hp & Hget & _)].
  - by apply elem_of_nil in Hnil.
  - eauto.
Qed.

End DifferFacts.

(** The example of the specification: against the cached mapping
    [{a: url1}], the batch [a/url1, a/url2, b/url3] yields [{a: url2, b: url3}]. *)
Example getDiffIcons_example :
  let a1 := mkIcon (Some "a") (Some "url1") 40 20 in
  let a2 := mkIcon (Some "a") (Some "url2") 40 20 in
  let b3 := mkIcon (Some "b") (Some "url3") 40 20 in
  getDiffIcons (Some [a1; a2; b3]) (Some IObject) (Some {[ "a" := mkPositioned a1 0 0 ]})
  = Return (Some [("a", a2); ("b", b3)]).
Proof. reflexivity. Qed.

(** Reads through the prototype.  Without a cached mapping, a single record
    with the id [constructor] makes the differ throw: [icons['constructor']]
    is the function that the fresh object inherits, so the look-up in the
    missing mapping is reached.  Against a cached mapping, a record with
    the id [__proto__] becomes the prototype of [icons] and is not among
    the icons returned. *)
Example getDiffIcons_inherited_ids :
  getDiffIcons (Some [mkIcon (Some "constructor") (Some "c.png") 40 20]) (Some IObject) None
  = Throw TypeError ∧
  getDiffIcons (Some [mkIcon (Some "__proto__") (Some "p.png") 40 20]) (Some IObject) (Some ∅)
  = Return (Some []).
Proof. split; reflexivity. Qed.

(** C1.  The differ returns an icon whose id is cached with the same url:
    against the cached mapping [{a: url1}], the batch [a/url1] yields
    [{a: url1}], not the empty object. *)
Theorem getDiffIcons_returns_unchanged_icon :
  let a1 := mkIcon (Some "a") (Some "url1") 40 20 in
  getDiffIcons (Some [a1]) (Some IObject) (Some {[ "a" := mkPositioned a1 0 0 ]})
  = Return (Some [("a", a1)]).
Proof. reflexivity. Qed.

(** ** Atlas cache *)

Section CacheFacts.

Context {K V : Type} `{EqDecision K}.
Implicit Types (c : LRUCache.t K V) (l : list (K * V)) (k : K) (v : V).

Lemma find_app k l1 l2 :
  LRUCache.find k (l1 ++ l2)
  = match LRUCache.find k l1 with
    | Some v => Some v
    | None => LRUCache.find k l2
    end.
Proof.
  induction l1 as [| [k' v'] l1 IH]; cbn; [reflexivity |].
  by destruct (decide (k' = k)).
Qed.

Lemma find_remove_eq k l : LRUCache.find k (LRUCache.remove k l) = None.
Proof.
  induction l as [| [k' v'] l IH]; cbn; [reflexivity |].
  destruct (decide (k' = k)) as [-> | Hne]; [exact IH |].
  cbn. by destruct (decide (k' = k)).
Qed.

Lemma find_remove_ne k k' l :
  k ≠ k' → LRUCache.find k' (LRUCache.remove k l) = LRUCache.find k' l.
Proof.
  intros Hne. induction l as [| [k0 v0] l IH]; cbn; [reflexivity |].
  destruct (decide (k0 = k)) as [-> | Hk].
  - destruct (decide (k = k')); [done | exact IH].
  - cbn. by destruct (decide (k0 = k')).
Qed.

(** Touching an entry moves it and changes no binding. *)
Lemma find_touch k v k' l :
  LRUCache.find k l = Some v →
  LRUCache.find k' (LRUCache.remove k l ++ [(k, v)]) = LRUCache.find k' l.
Proof.
  intros Hfind. rewrite find_app.
  destruct (decide (k = k')) as [<- | Hne].
  - rewrite find_remove_eq, Hfind. cbn. by destruct (decide (k = k)).
  - rewrite find_remove_ne by done.
    destruct (LRUCache.find k' l); [reflexivity |].
    cbn. by destruct (decide (k = k')).
Qed.

Lemma get_value c k : (LRUCache.get c k).1 = LRUCache.peek c k.
Proof. unfold LRUCache.get, LRUCache.peek. by destruct (LRUCache.find k (LRUCache.entries c)). Qed.

(** A read touches the entry and leaves every binding as it was. *)
Lemma peek_get c k k' :
  LRUCache.peek (LRUCache.get c k).2 k' = LRUCache.peek c k'.
Proof.
  unfold LRUCache.get, LRUCache.peek.
  destruct (LRUCache.find k (LRUCache.entries c)) as [v |] eqn:Hfind; [| reflexivity].
  cbn. by apply find_touch.
Qed.

(** A write is read back, whether it replaced, inserted or evicted. *)
Lemma peek_set_eq c k v : LRUCache.peek (LRUCache.set c k v) k = Some v.
Proof.
  unfold LRUCache.set, LRUCache.peek.
  destruct (LRUCache.find k (LRUCache.entries c)) as [v' |] eqn:Hfind; cbn.
  - rewrite find_app, find_remove_eq. cbn. by destruct (decide (k = k)).
  - rewrite find_app.
    assert (LRUCache.find k (tail (LRUCache.entries c)) = None) as Htail.
    { destruct (LRUCache.entries c) as [| [k0 v0] l]; [done |].
      cbn in Hfind |- *. by destruct (decide (k0 = k)). }
    destruct (_ <=? _)%nat; rewrite ?Htail, ?Hfind; cbn; by destruct (decide (k = k)).
Qed.

(** Replacing the value of a present key changes no other binding. *)
Lemma peek_set_ne c k v k' :
  is_Some (LRUCache.peek c k) → k ≠ k' →
  LRUCache.peek (LRUCache.set c k v) k' = LRUCache.peek c k'.
Proof.
  unfold LRUCache.set, LRUCache.peek. intros [v' Hfind] Hne.
  rewrite Hfind. cbn. rewrite find_app, find_remove_ne by done.
  destruct (LRUCache.find k' (LRUCache.entries c)); [reflexivity |].
  cbn. by destruct (decide (k = k')).
Qed.

End CacheFacts.

(** ** The packer only writes the ids it is given *)

Section PackerFrame.

Variables (buffer maxCanvasWidth : N) (k : string).

Lemma buildRowMapping_lookup_other columns (m : gmap string PositionedIcon) y :
  Forall (λ c, iconKey (col_icon c) ≠ k) columns →
  buildRowMapping m columns y !! k = m !! k.
Proof.
  revert m. induction columns as [| c columns IH]; intros m Hall; [reflexivity |].
  apply Forall_cons in Hall as [Hc Hall]. cbn.
  rewrite IH by done. by rewrite lookup_insert_ne.
Qed.

Lemma packIcon_untouched m0 st icon :
  iconKey icon ≠ k → untouched k m0 st →
  untouched k m0 (packIcon buffer maxCanvasWidth st icon).
Proof.
  intros Hk [Hm Hcols]. unfold packIcon, untouched.
  destruct (maxCanvasWidth <? _); cbn [pk_mapping pk_columns pk_xOffset].
  - split.
    + by rewrite buildRowMapping_lookup_other.
    + by repeat constructor.
  - split; [done |]. apply Forall_app. split; [done |]. by repeat constructor.
Qed.

Lemma packLoop_untouched m0 icons st :
  Forall (λ icon, iconKey icon ≠ k) icons → untouched k m0 st →
  untouched k m0 (packLoop buffer maxCanvasWidth st icons).
Proof.
  revert st. induction icons as [| icon icons IH]; intros st Hall Hst; [exact Hst |].
  apply Forall_cons in Hall as [Hk Hall]. cbn.
  by apply IH, packIcon_untouched.
Qed.

Lemma buildMapping_lookup_other icons mapping0 xOffset0 yOffset0 :
  Forall (λ icon, iconKey icon ≠ k) icons →
  mapping (buildMapping icons buffer mapping0 xOffset0 yOffset0 maxCanvasWidth) !! k
  = default ∅ mapping0 !! k.
Proof.
  intros Hall. unfold buildMapping. cbn [mapping].
  destruct (packLoop_untouched (default ∅ mapping0) icons
              (packInit mapping0 xOffset0 yOffset0) Hall) as [Hm Hcols].
  { split; [reflexivity | constructor]. }
  unfold packFlush.
  destruct (pk_columns _) eqn:Hc; [exact Hm |].
  rewrite <- Hc in *. by rewrite buildRowMapping_lookup_other.
Qed.

End PackerFrame.

(** ** No overlap within one call *)

Section NoOverlap.

Variables buffer maxCanvasWidth : N.

Lemma overlaps_above p q :
  pos_y p + icon_height (pos_icon p) ≤ pos_y q → overlaps p q = false.
Proof.
  intros Hle. unfold overlaps.
  destruct (N.ltb_spec (pos_y q) (pos_y p + icon_height (pos_icon p))); [lia |].
  by rewrite andb_false_r.
Qed.

Lemma overlaps_left p q :
  pos_x p + icon_width (pos_icon p) ≤ pos_x q → overlaps p q = false.
Proof.
  intros Hle. unfold overlaps.
  destruct (N.ltb_spec (pos_x q) (pos_x p + icon_width (pos_icon p))); [lia |].
  by rewrite andb_false_r.
Qed.

Lemma overlaps_comm p q : overlaps p q = overlaps q p.
Proof. unfold overlaps. repeat destruct (_ <? _); reflexivity. Qed.

Lemma columnsApart_app columns d :
  columnsApart columns →
  Forall (λ c, col_xOffset c + icon_width (col_icon c) ≤ col_xOffset d) columns →
  columnsApart (columns ++ [d]).
Proof.
  induction columns as [| c columns IH]; cbn; [done |].
  intros [Hc Hrest] [Hcd Hall]%Forall_cons. split.
  - apply Forall_app. split; [done | by constructor].
  - by apply IH.
Qed.

(** Two columns of a row that is [columnsApart] commit boxes that do not overlap,
    unless they are the same column. *)
Lemma columnsApart_committed columns c d y :
  columnsApart columns → c ∈ columns → d ∈ columns →
  c = d ∨ overlaps (committed y c) (committed y d) = false.
Proof.
  induction columns as [| e columns IH]; [by intros _ ?%elem_of_nil |].
  intros [He Hrest] [-> | Hc]%elem_of_cons [-> | Hd]%elem_of_cons.
  - by left.
  - right. apply overlaps_left. cbn. by eapply Forall_forall in He.
  - right. rewrite overlaps_comm. apply overlaps_left. cbn. by eapply Forall_forall in He.
  - by apply IH.
Qed.

(** An entry of the mapping after a row was committed is an entry from
    before or the box of one of the row's columns under its icon's id. *)
Lemma buildRowMapping_lookup columns (m : gmap string PositionedIcon) y k p :
  buildRowMapping m columns y !! k = Some p →
  m !! k = Some p ∨ ∃ c, c ∈ columns ∧ iconKey (col_icon c) = k ∧ p = committed y c.
Proof.
  revert m. induction columns as [| c columns IH]; intros m; cbn; [by left |].
  intros [Hm | (d & Hd & Hk & Hp)]%IH.
  - destruct (decide (iconKey (col_icon c) = k)) as [Heq | Hne].
    + rewrite Heq, lookup_insert_eq in Hm. injection Hm as <-.
      right. exists c. split; [apply elem_of_cons; by left | done].
    + rewrite lookup_insert_ne in Hm by done. by left.
  - right. exists d. split; [apply elem_of_cons; by right | done].
Qed.

(** Committing a row below everything committed so far keeps the mapping
    free of overlaps. *)
Lemma buildRowMapping_noOverlap columns (m : gmap string PositionedIcon) y :
  noOverlap m → endsAbove y m → columnsApart columns →
  noOverlap (buildRowMapping m columns y).
Proof.
  intros Hdis Habove Hapart k1 k2 p q Hne Hp Hq.
  apply buildRowMapping_lookup in Hp as [Hp | (c & Hc & Hkc & ->)];
    apply buildRowMapping_lookup in Hq as [Hq | (d & Hd & Hkd & ->)].
  - by eapply Hdis.
  - apply overlaps_above. cbn. by eapply Habove.
  - rewrite overlaps_comm. apply overlaps_above. cbn. by eapply Habove.
  - destruct (columnsApart_committed columns c d y Hapart Hc Hd) as [-> | Hov]; [| done].
    congruence.
Qed.

Lemma buildRowMapping_endsAbove columns (m : gmap string PositionedIcon) y h y' :
  endsAbove y m →
  Forall (λ c, icon_height (col_icon c) ≤ h) columns →
  y + h ≤ y' →
  endsAbove y' (buildRowMapping m columns y).
Proof.
  intros Habove Hh Hy k p [Hp | (c & Hc & _ & ->)]%buildRowMapping_lookup.
  - specialize (Habove k p Hp). lia.
  - cbn. eapply Forall_forall in Hh; [| done]. cbn in Hh. lia.
Qed.

Lemma packIcon_wellPacked st icon :
  wellPacked st → wellPacked (packIcon buffer maxCanvasWidth st icon).
Proof.
  intros (Hdis & Habove & Hapart & Hcols). unfold packIcon, wellPacked.
  destruct (maxCanvasWidth <? _);
    cbn [pk_mapping pk_columns pk_xOffset pk_yOffset pk_rowHeight app].
  - repeat split.
    + by apply buildRowMapping_noOverlap.
    + apply (buildRowMapping_endsAbove _ _ _ (pk_rowHeight st)); [done | | lia].
      eapply Forall_impl; [exact Hcols |]. cbn. intros c [_ Hh]. exact Hh.
    + constructor.
    + repeat constructor; cbn; lia.
  - repeat split; [done | done | |].
    + apply columnsApart_app; [done |].
      eapply Forall_impl; [exact Hcols |]. cbn. intros c [Hx _]. exact Hx.
    + apply Forall_app. split.
      * eapply Forall_impl; [exact Hcols |]. cbn. intros c [Hx Hh]. lia.
      * repeat constructor; cbn; lia.
Qed.

Lemma packLoop_wellPacked icons st :
  wellPacked st → wellPacked (packLoop buffer maxCanvasWidth st icons).
Proof.
  revert st. induction icons as [| icon icons IH]; intros st Hst; [exact Hst |].
  cbn. by apply IH, packIcon_wellPacked.
Qed.

Lemma packFlush_noOverlap st : wellPacked st → noOverlap (packFlush st).
Proof.
  destruct st as [m columns x y h]. intros (Hdis & Habove & Hapart & _).
  unfold packFlush. cbn in *.
  destruct columns as [| c columns]; [done |].
  by apply buildRowMapping_noOverlap.
Qed.

(** X5.  A call of [buildMapping] keeps the mapping free of overlaps when
    the icons committed before it all end at or above the row it starts
    in. *)
Lemma buildMapping_noOverlap icons (mapping0 : gmap string PositionedIcon) xOffset0 yOffset0 :
  noOverlap mapping0 →
  endsAbove (default 0 yOffset0) mapping0 →
  noOverlap (mapping (buildMapping icons buffer (Some mapping0) xOffset0 yOffset0
                        maxCanvasWidth)).
Proof.
  intros Hdis Habove. unfold buildMapping. cbn [mapping].
  apply packFlush_noOverlap, packLoop_wellPacked.
  repeat split; cbn; done.
Qed.

(** X4.  Within one call that starts from the empty mapping, the boxes
    that [buildMapping] commits under different ids never overlap. *)
Lemma buildMapping_single_call_noOverlap icons xOffset0 yOffset0 :
  noOverlap (mapping (buildMapping icons buffer None xOffset0 yOffset0 maxCanvasWidth)).
Proof.
  unfold buildMapping. cbn [mapping].
  apply packFlush_noOverlap, packLoop_wellPacked.
  repeat split; cbn; done.
Qed.

End NoOverlap.

(** ** Atlas updater *)

Section UpdaterFacts.

Context {Point : Type}.
Implicit Types (this : IconManager Point) (w : World).

Lemma cachedGet_run gl w :
  cachedGet gl w = (Return (atlasOf w gl), touched gl w).
Proof.
  unfold cachedGet, touched, atlasOf. rewrite <- get_value.
  by destruct (LRUCache.get (cached w) gl).
Qed.

Lemma update_throw this data buffer maxCanvasWidth w e :
  getDiffIcons data (_getIcon this) (st_mapping <$> atlasOf w (gl this)) = Throw e →
  _updateAutoPacking this data buffer maxCanvasWidth w = (Throw e, touched (gl this) w).
Proof.
  intros Hdiff. unfold _updateAutoPacking, mbind, M_bind.
  rewrite cachedGet_run. unfold lift. rewrite Hdiff. reflexivity.
Qed.

Lemma update_commit this data buffer maxCanvasWidth w diff icon rest :
  getDiffIcons data (_getIcon this) (st_mapping <$> atlasOf w (gl this)) = Return diff →
  Obj.values (default Obj.empty diff) = icon :: rest →
  let cachedData := atlasOf w (gl this) in
  let r := buildMapping (icon :: rest) buffer (st_mapping <$> cachedData)
             (st_xOffset <$> cachedData) (st_yOffset <$> cachedData) maxCanvasWidth in
  ∃ texture ops,
    _updateAutoPacking this data buffer maxCanvasWidth w
    = (Return tt,
       mkWorld (LRUCache.set (cached (touched (gl this) w)) (gl this)
                  (mkAtlas (mapping r) (Some texture) (xOffset r) (yOffset r) None
                           (canvasHeight r)))
               (S (notifications w))
               (surfaceOps w ++ ops ++ map LoadIcon (icon :: rest))) ∧
    tex_height texture = canvasHeight r ∧
    tex_width texture = default maxCanvasWidth (tex_width <$> (cachedData ≫= st_texture)).
Proof.
  intros Hdiff Hvalues cachedData r.
  unfold _updateAutoPacking, mbind at 1, M_bind.
  rewrite cachedGet_run. unfold lift, mbind at 1, M_bind.
  rewrite Hdiff. cbv beta iota. rewrite Hvalues.
  fold cachedData. fold r. clearbody r.
  destruct (cachedData ≫= st_texture) as [texture |]; cbn [from_option fmap option_fmap option_map].
  - destruct (decide (tex_height texture = canvasHeight r)) as [Heq | Hne].
    + exists texture, [].
      unfold mbind, M_bind, mret, M_ret, _loadIcons, surface, cachedSet, onUpdate. cbn.
      destruct (decide (tex_height texture = canvasHeight r)); [| done]. cbn.
      by rewrite <- ?app_assoc.
    + exists (mkTexture (tex_width texture) (canvasHeight r)),
             [ResizeTexture (tex_width texture) (canvasHeight r)].
      unfold _resizeTexture, _loadIcons, surface, cachedSet, onUpdate; unfold mbind, M_bind, mret, M_ret.
      cbn. destruct (decide (tex_height texture = canvasHeight r)); [done |]. cbn.
      by rewrite <- ?app_assoc.
  - exists (mkTexture maxCanvasWidth (canvasHeight r)),
           [CreateTexture maxCanvasWidth (canvasHeight r)].
    unfold _resizeTexture, _loadIcons, surface, cachedSet, onUpdate; unfold mbind, M_bind, mret, M_ret.
    cbn. destruct (decide (canvasHeight r = canvasHeight r)); [| done]. cbn.
    by rewrite <- ?app_assoc.
Qed.

Lemma update_noop this data buffer maxCanvasWidth w diff :
  getDiffIcons data (_getIcon this) (st_mapping <$> atlasOf w (gl this)) = Return diff →
  Obj.values (default Obj.empty diff) = [] →
  _updateAutoPacking this data buffer maxCanvasWidth w = (Return tt, touched (gl this) w).
Proof.
  intros Hdiff Hvalues.
  unfold _updateAutoPacking, mbind at 1, M_bind.
  rewrite cachedGet_run. unfold lift, mbind at 1, M_bind.
  rewrite Hdiff. cbv beta iota. by rewrite Hvalues.
Qed.

End UpdaterFacts.

(** ** Missing icons and urls *)

Section Missing.

Context {Point : Type}.
Implicit Types (getIcon : Point → IconVal) (icons : DiffObject).

(** A record without an icon, or with an icon without a url, stops the
    differ with the corresponding error. *)
Lemma diffIcon_missing cachedIcons icons icon :
  iconval_truthy icon = false ∨ Js.truthy (iconUrl icon) = false →
  diffIcon cachedIcons icons icon = Throw IconMissing ∨
  diffIcon cachedIcons icons icon = Throw IconUrlMissing.
Proof.
  unfold diffIcon. intros [Hicon | Hurl].
  - rewrite Hicon. by left.
  - destruct (negb (iconval_truthy icon)); [by left |].
    rewrite Hurl. by right.
Qed.

(** Against a cached mapping the differ throws nothing else. *)
Lemma diffIcon_throws cachedMapping icons icon e :
  diffIcon (Some cachedMapping) icons icon = Throw e →
  e = IconMissing ∨ e = IconUrlMissing.
Proof.
  unfold diffIcon.
  destruct (negb (iconval_truthy icon)); [intros [= <-]; by left |].
  destruct (negb (Js.truthy (iconUrl icon))); [intros [= <-]; by right |].
  destruct icon as [| | s | i]; try (intros [= <-]; by right).
  destruct (negb (readTruthy (diffGet icons _))); [done |].
  cbv zeta. destruct (negb (readTruthy (mappingGet cachedMapping _))); [done |].
  by destruct (Js.strict_neq _ _).
Qed.

Lemma diffLoop_missing getIcon cachedIcons data icons point :
  point ∈ data →
  iconval_truthy (getIcon point) = false ∨ Js.truthy (iconUrl (getIcon point)) = false →
  ∃ e, diffLoop getIcon cachedIcons data icons = Throw e ∧
       (is_Some cachedIcons → e = IconMissing ∨ e = IconUrlMissing).
Proof.
  intros Hin Hbad. revert icons.
  induction data as [| p data IH]; intros icons; [by apply elem_of_nil in Hin |].
  cbn. apply elem_of_cons in Hin as [<- | Hin].
  - destruct (diffIcon_missing cachedIcons icons (getIcon point) Hbad) as [-> | ->]; eauto.
  - destruct (diffIcon cachedIcons icons (getIcon p)) as [icons1 | e] eqn:Hstep.
    + by apply IH.
    + exists e. split; [reflexivity |].
      intros [cachedMapping ->]. by eapply diffIcon_throws.
Qed.

End Missing.

Section Updater.

Context {Point : Type}.
Implicit Types (this : IconManager Point) (w : World).

Lemma atlasOf_touched gl0 w ctx : atlasOf (touched gl0 w) ctx = atlasOf w ctx.
Proof. unfold atlasOf, touched. cbn. apply peek_get. Qed.

(** C7.  When some record of the batch yields no icon, or an icon without
    a url, the update throws and changes nothing: the state of every
    context, the notifications and the surface requests are as before.
    For a context that has a cached state the error is the missing-icon
    or the missing-url error. *)
Theorem update_missing_icon_throws this w getIcon data buffer maxCanvasWidth point :
  _getIcon this = Some getIcon →
  point ∈ data →
  iconval_truthy (getIcon point) = false ∨ Js.truthy (iconUrl (getIcon point)) = false →
  ∃ e w',
    _updateAutoPacking this (Some data) buffer maxCanvasWidth w = (Throw e, w') ∧
    (is_Some (atlasOf w (gl this)) → e = IconMissing ∨ e = IconUrlMissing) ∧
    (∀ ctx, atlasOf w' ctx = atlasOf w ctx) ∧
    notifications w' = notifications w ∧
    surfaceOps w' = surfaceOps w.
Proof.
  intros HgetIcon Hin Hbad.
  destruct (diffLoop_missing getIcon (st_mapping <$> atlasOf w (gl this)) data
              (mkDiff Obj.empty None) point Hin Hbad) as (e & Hloop & Hkind).
  exists e, (touched (gl this) w). split; [| split; [| split; [| done]]].
  - apply update_throw. rewrite HgetIcon. unfold getDiffIcons. by rewrite Hloop.
  - intros [st Hst]. apply Hkind. rewrite Hst. by eexists.
  - intros ctx. apply atlasOf_touched.
Qed.

End Updater.

Lemma update_missing_icon_throws_witness :
  ∃ e w',
    _updateAutoPacking exampleManager (Some [IObject iconA2; IUndefined])
      DEFAULT_BUFFER MAX_CANVAS_WIDTH worldPacked = (Throw e, w') ∧
    (is_Some (atlasOf worldPacked 7%nat) → e = IconMissing ∨ e = IconUrlMissing) ∧
    (∀ ctx, atlasOf w' ctx = atlasOf worldPacked ctx) ∧
    notifications w' = notifications worldPacked ∧
    surfaceOps w' = surfaceOps worldPacked.
Proof.
  apply (update_missing_icon_throws exampleManager worldPacked (λ icon, icon)
           [IObject iconA2; IUndefined] DEFAULT_BUFFER MAX_CANVAS_WIDTH IUndefined).
  - reflexivity.
  - apply elem_of_cons. right. apply elem_of_cons. by left.
  - left. reflexivity.
Defined.

Section Commit.

Context {Point : Type}.
Implicit Types (this : IconManager Point) (w : World).

(** The descriptors that an update packs are extracted from records of its
    batch. *)
Lemma update_packs_batch_ids this w data diff icon :
  getDiffIcons data (_getIcon this) (st_mapping <$> atlasOf w (gl this)) = Return diff →
  icon ∈ Obj.values (default Obj.empty diff) →
  ∃ getIcon points point,
    _getIcon this = Some getIcon ∧ data = Some points ∧ point ∈ points ∧
    getIcon point = IObject icon.
Proof.
  intros Hdiff Hin.
  destruct data as [points |], (_getIcon this) as [getIcon |] eqn:Hget;
    try (cbn in Hdiff; injection Hdiff as <-; by apply elem_of_nil in Hin).
  destruct diff as [icons |].
  - destruct (getDiffIcons_values _ _ _ _ _ Hdiff Hin) as (point & Hp & Hicon).
    by exists getIcon, points, point.
  - by apply elem_of_nil in Hin.
Qed.

(** C5, amended.  An update whose batch has no record with a given id
    leaves the committed entry of that id as it is, position included. *)
Theorem update_keeps_ids_outside_batch this w data buffer maxCanvasWidth st id p :
  atlasOf w (gl this) = Some st →
  st_mapping st !! id = Some p →
  (∀ getIcon points point,
     _getIcon this = Some getIcon → data = Some points → point ∈ points →
     Js.toPropertyKey (getIconId (getIcon point)) ≠ id) →
  ∃ st',
    atlasOf (_updateAutoPacking this data buffer maxCanvasWidth w).2 (gl this) = Some st' ∧
    st_mapping st' !! id = Some p.
Proof.
  intros Hst Hp Hfresh.
  destruct (getDiffIcons data (_getIcon this) (st_mapping <$> atlasOf w (gl this)))
    as [diff | e] eqn:Hdiff.
  - destruct (Obj.values (default Obj.empty diff)) as [| icon rest] eqn:Hvalues.
    + rewrite (update_noop _ _ _ _ _ _ Hdiff Hvalues). cbn [snd].
      exists st. by rewrite atlasOf_touched.
    + destruct (update_commit _ _ buffer maxCanvasWidth _ _ _ _ Hdiff Hvalues)
        as (texture & ops & -> & _).
      cbn [snd]. eexists. split.
      * apply peek_set_eq.
      * cbn [st_mapping]. rewrite buildMapping_lookup_other.
        { rewrite Hst. exact Hp. }
        apply Forall_forall. intros icon' Hin.
        rewrite <- Hvalues in Hin.
        destruct (update_packs_batch_ids _ _ _ _ _ Hdiff Hin)
          as (getIcon & points & point & Hget & Hdata & Hpoint & Hicon).
        specialize (Hfresh getIcon points point Hget Hdata Hpoint).
        by rewrite Hicon in Hfresh.
  - rewrite (update_throw _ _ _ _ _ _ Hdiff). cbn [snd].
    exists st. by rewrite atlasOf_touched.
Qed.

(** C8, amended.  An update with a non-empty diff commits exactly the
    mapping, cursor and canvas height that the packer returns, together with
    the texture; the committed state has no [canvasWidth].  The width lives
    in the packer's result and in the texture, which is as wide as
    [maxCanvasWidth] when the update creates it. *)
Theorem update_committed_fields this w data buffer maxCanvasWidth diff :
  getDiffIcons data (_getIcon this) (st_mapping <$> atlasOf w (gl this)) = Return diff →
  Obj.values (default Obj.empty diff) ≠ [] →
  let cachedData := atlasOf w (gl this) in
  let r := buildMapping (Obj.values (default Obj.empty diff)) buffer
             (st_mapping <$> cachedData) (st_xOffset <$> cachedData)
             (st_yOffset <$> cachedData) maxCanvasWidth in
  ∃ texture,
    atlasOf (_updateAutoPacking this data buffer maxCanvasWidth w).2 (gl this)
    = Some (mkAtlas (mapping r) (Some texture) (xOffset r) (yOffset r) None (canvasHeight r)) ∧
    tex_height texture = canvasHeight r ∧
    tex_width texture = default maxCanvasWidth (tex_width <$> (cachedData ≫= st_texture)) ∧
    canvasWidth r = maxCanvasWidth.
Proof.
  intros Hdiff Hne cachedData r.
  destruct (Obj.values (default Obj.empty diff)) as [| icon rest] eqn:Hvalues; [done |].
  destruct (update_commit _ _ buffer maxCanvasWidth _ _ _ _ Hdiff Hvalues)
    as (texture & ops & -> & Hheight & Hwidth).
  exists texture. cbn [snd]. split; [| done].
  unfold atlasOf. cbn [cached]. apply peek_set_eq.
Qed.

(** C9, amended.  Constructing a manager for a context always commits the
    empty state for it, whatever was cached for that context before. *)
Theorem constructor_commits_empty_state (gl0 : Context) w :
  atlasOf (constructor (Point := Point) gl0 w).2 gl0
  = Some (mkAtlas ∅ None 0 0 (Some 0) 0).
Proof. unfold atlasOf. cbn. apply peek_set_eq. Qed.

(** C10, amended.  When the id of the extracted icon has no entry in the
    active mapping (the cached mapping of the context in auto-packing mode,
    the supplied mapping otherwise) and names no property that the mapping
    inherits, [getIconMapping] returns the empty object.  What a mapping
    inherits are the properties of [Object.prototype] and, for a cached
    mapping whose prototype an entry under [__proto__] has replaced, the
    properties of that entry. *)
Theorem getIconMapping_missing_entry this w getIcon dataPoint :
  _getIcon this = Some getIcon →
  (if _autoPacking this
   then
     let id := Js.toPropertyKey (getIconId (getIcon dataPoint)) in
     ∃ st, atlasOf w (gl this) = Some st ∧
           st_mapping st !! id = None ∧
           Js.inherited id = false ∧
           (∀ proto, st_mapping st !! "__proto__" = Some proto →
                     positionedField proto id = None)
   else
     let key := iconValKey (getIcon dataPoint) in
     ∃ userMapping, _mapping this = Some userMapping ∧
                    userMapping !! key = None ∧
                    Js.inherited key = false) →
  (getIconMapping this dataPoint w).1 = Return EmptyObject.
Proof.
  intros Hget Hactive. unfold getIconMapping. rewrite Hget.
  destruct (_autoPacking this).
  - destruct Hactive as (st & Hst & Hnone & Hname & Hproto).
    unfold mbind, M_bind. rewrite cachedGet_run, Hst. cbn.
    unfold mappingGet, objectPrototypeGet. rewrite Hnone, Hname.
    destruct (st_mapping st !! "__proto__") as [proto |]; cbn; [| done].
    by rewrite (Hproto proto eq_refl).
  - destruct Hactive as (userMapping & -> & Hnone & Hname). cbn.
    unfold userMappingGet, objectPrototypeGet. by rewrite Hnone, Hname.
Qed.

End Commit.

Lemma update_keeps_ids_outside_batch_witness :
  ∃ st',
    atlasOf (_updateAutoPacking exampleManager
               (Some [IObject (mkIcon (Some "b") (Some "url3") 40 20)])
               DEFAULT_BUFFER MAX_CANVAS_WIDTH worldPacked).2 7%nat = Some st' ∧
    st_mapping st' !! "a" = Some (mkPositioned iconA1 0 0).
Proof.
  eapply (update_keeps_ids_outside_batch exampleManager worldPacked
            (Some [IObject (mkIcon (Some "b") (Some "url3") 40 20)])
            DEFAULT_BUFFER MAX_CANVAS_WIDTH _ "a" (mkPositioned iconA1 0 0)).
  - vm_compute. reflexivity.
  - vm_compute. reflexivity.
  - intros getIcon points point [= <-] [= <-] Hin.
    apply list_elem_of_singleton in Hin as ->. discriminate.
Defined.

(** C5, as stated, fails where the url of a committed icon changes: the
    icon [a] committed at (0,0) is packed again by the batch [a/url2] and
    its entry moves to (44,0). *)
Lemma update_changed_url_moves_icon :
  ¬ position_kept exampleManager worldPacked (Some [IObject iconA2])
      DEFAULT_BUFFER MAX_CANVAS_WIDTH "a".
Proof.
  intros Hkept.
  edestruct Hkept as [Hx _].
  - vm_compute. reflexivity.
  - vm_compute. reflexivity.
  - vm_compute. reflexivity.
  - vm_compute. reflexivity.
  - vm_compute in Hx. discriminate Hx.
Qed.

Lemma update_committed_fields_witness :
  ∃ st', atlasOf worldPacked 7%nat = Some st' ∧
         st_canvasWidth st' = None ∧
         st_texture st' = Some (mkTexture 1024 32) ∧
         st_canvasHeight st' = 32.
Proof.
  destruct (update_committed_fields exampleManager worldConstructed
              (Some [IObject iconA1]) DEFAULT_BUFFER MAX_CANVAS_WIDTH
              (Some [("a", iconA1)]))
    as (texture & Hst & Hheight & Hwidth & _).
  - reflexivity.
  - discriminate.
  - eexists. split; [exact Hst |]. cbn [st_canvasWidth st_texture st_canvasHeight].
    destruct texture as [tw th]. cbn in Hheight, Hwidth. subst tw th.
    repeat split.
Defined.

(** C8, as stated, fails at the first update of a fresh context: the state
    committed for the batch [a/url1] has no [canvasWidth]. *)
Lemma update_commits_no_canvasWidth :
  ¬ commits_canvasWidth exampleManager worldConstructed (Some [IObject iconA1])
      DEFAULT_BUFFER MAX_CANVAS_WIDTH.
Proof.
  intros Hcommits.
  destruct (Hcommits (Some [("a", iconA1)])) as (st' & Hst & Hwidth).
  - reflexivity.
  - discriminate.
  - vm_compute in Hst. injection Hst as <-. discriminate Hwidth.
Qed.

(** C9, as stated, fails for a context whose cached state is not empty:
    after the icon [a] was packed for context 7, constructing a manager for
    context 7 again replaces the state. *)
Lemma second_construction_resets_state :
  ¬ construction_keeps_state (Point := IconVal) 7%nat worldPacked.
Proof.
  intros Hkeeps.
  pose proof (Hkeeps _ eq_refl) as Hst.
  vm_compute in Hst. discriminate Hst.
Qed.

Lemma getIconMapping_missing_entry_witness :
  (getIconMapping exampleManager (IObject iconA1) worldConstructed).1 = Return EmptyObject.
Proof.
  apply (getIconMapping_missing_entry exampleManager worldConstructed (λ icon, icon)).
  - reflexivity.
  - cbn. eexists. split; [vm_compute; reflexivity |].
    split; [vm_compute; reflexivity |]. split; [reflexivity |].
    intros proto Hproto. vm_compute in Hproto. discriminate Hproto.
Defined.

(** C10, as stated, fails for an id that names a property of
    [Object.prototype]: the freshly constructed context 7 has no entry for
    the icon with id [constructor], and [getIconMapping] returns what the
    empty mapping inherits under that name, not the empty object. *)
Lemma getIconMapping_returns_inherited_constructor :
  ¬ missing_entry_gives_empty exampleManager worldConstructed
      (IObject (mkIcon (Some "constructor") (Some "c.png") 40 20)).
Proof.
  intros Hempty.
  specialize (Hempty (λ icon, icon) eq_refl).
  assert ((getIconMapping exampleManager
             (IObject (mkIcon (Some "constructor") (Some "c.png") 40 20))
             worldConstructed).1 = Return EmptyObject) as Hreturned.
  { apply Hempty. cbn. eexists. split; vm_compute; reflexivity. }
  vm_compute in Hreturned. discriminate Hreturned.
Qed.

(** ** Where the code departs from its intent *)

Section Repack.

Context {Point : Type}.
Implicit Types (this : IconManager Point) (w : World) (getIcon : Point → IconVal).

Lemma insertIndexed_length {A : Type} n (v : A) l :
  length (Obj.insertIndexed n v l) = S (length l).
Proof.
  induction l as [| [m x] l IH]; cbn; [reflexivity |].
  destruct (n <? m); cbn; [reflexivity | by rewrite IH].
Qed.

(** [Object.values] enumerates every binding once. *)
Lemma values_length {A : Type} (o : Obj.t A) : length (Obj.values o) = length o.
Proof.
  unfold Obj.values. rewrite length_app, length_map.
  induction o as [| [k v] o IH]; cbn; [reflexivity |].
  destruct (Obj.arrayIndex k); cbn; rewrite ?insertIndexed_length; lia.
Qed.

Lemma set_length_pos {A : Type} (o : Obj.t A) k v : (0 < length (Obj.set o k v))%nat.
Proof.
  destruct o as [| [k' v'] o]; cbn; [lia |].
  destruct (String.eqb k' k); cbn; lia.
Qed.

Lemma set_length_le {A : Type} (o : Obj.t A) k v : (length o ≤ length (Obj.set o k v))%nat.
Proof.
  induction o as [| [k' v'] o IH]; cbn; [lia |].
  destruct (String.eqb k' k); cbn; lia.
Qed.

Lemma diffSet_own_length (icons : DiffObject) k v :
  (length (diff_own icons) ≤ length (diff_own (diffSet icons k v)))%nat ∧
  (k ≠ "__proto__" → 0 < length (diff_own (diffSet icons k v)))%nat.
Proof.
  unfold diffSet. destruct (String.eqb_spec k "__proto__") as [-> | Hne]; cbn [diff_own].
  - split; [lia | done].
  - split; [apply set_length_le | intros _; apply set_length_pos].
Qed.

(** Against a cached mapping, a batch whose records all yield descriptors
    with a url runs through the differ without an error, and a batch with
    an id other than [__proto__] gives a non-empty result, whatever is
    cached. *)
Lemma diffLoop_valid_batch getIcon cachedMapping data (icons : DiffObject) :
  Forall (wellFormed getIcon) data →
  ∃ icons', diffLoop getIcon (Some cachedMapping) data icons = Return icons' ∧
            (length (diff_own icons) ≤ length (diff_own icons'))%nat ∧
            (Exists (λ point, recordId getIcon point ≠ "__proto__") data →
             0 < length (diff_own icons'))%nat.
Proof.
  revert icons. induction data as [| point data IH]; intros icons Hall.
  - exists icons. cbn. repeat split; [lia | by intros ?%Exists_nil].
  - apply Forall_cons in Hall as [(i & Hi & Hurl) Hall]. cbn.
    rewrite Hi, diffIcon_always_assigns by done.
    destruct (IH (diffSet icons (iconKey i) i) Hall) as (icons' & -> & Hle & Hpos).
    exists icons'. destruct (diffSet_own_length icons (iconKey i) i) as [Hle1 Hpos1].
    repeat split; [lia |].
    intros [Hpoint | Hlater]%Exists_cons.
    + unfold recordId in Hpoint. rewrite Hi in Hpoint. specialize (Hpos1 Hpoint). lia.
    + by apply Hpos.
Qed.

(** Every update with a batch of well-formed icons that has an id other
    than [__proto__] commits and notifies, whether or not the icons are
    cached with the same urls. *)
Lemma update_valid_batch_commits this w getIcon data buffer maxCanvasWidth :
  _getIcon this = Some getIcon →
  is_Some (atlasOf w (gl this)) →
  Forall (wellFormed getIcon) data →
  Exists (λ point, recordId getIcon point ≠ "__proto__") data →
  ∃ w', _updateAutoPacking this (Some data) buffer maxCanvasWidth w = (Return tt, w') ∧
        notifications w' = S (notifications w).
Proof.
  intros Hget [st Hst] Hall Hne.
  destruct (diffLoop_valid_batch getIcon (st_mapping st) data (mkDiff Obj.empty None) Hall)
    as (icons & Hloop & _ & Hpos).
  assert (getDiffIcons (Some data) (_getIcon this) (st_mapping <$> atlasOf w (gl this))
          = Return (Some (diff_own icons))) as Hdiff.
  { rewrite Hget, Hst. cbn. by rewrite Hloop. }
  destruct (Obj.values (default Obj.empty (Some (diff_own icons)))) as [| icon rest] eqn:Hvalues.
  - apply (f_equal length) in Hvalues.
    rewrite values_length in Hvalues. cbn in Hvalues. specialize (Hpos Hne). lia.
  - destruct (update_commit _ _ buffer maxCanvasWidth _ _ _ _ Hdiff Hvalues)
      as (texture & ops & -> & _).
    eexists. split; reflexivity.
Qed.

End Repack.

(** C2.  Running the update again with the batch [a/url1], whose only icon
    is cached with the same url, is not a no-op: the differ returns the icon,
    the packer moves its entry from (0,0) to (44,0) and the cursor from 44
    to 88, one more notification is emitted and one more load is
    scheduled. *)
Theorem update_same_batch_repacks :
  let again :=
    (_updateAutoPacking exampleManager (Some [IObject iconA1])
       DEFAULT_BUFFER MAX_CANVAS_WIDTH worldPacked).2 in
  (atlasOf worldPacked 7%nat ≫= λ st, st_mapping st !! "a") = Some (mkPositioned iconA1 0 0) ∧
  (atlasOf again 7%nat ≫= λ st, st_mapping st !! "a") = Some (mkPositioned iconA1 44 0) ∧
  (st_xOffset <$> atlasOf worldPacked 7%nat) = Some 44 ∧
  (st_xOffset <$> atlasOf again 7%nat) = Some 88 ∧
  notifications again = S (notifications worldPacked) ∧
  surfaceOps again = (surfaceOps worldPacked ++ [LoadIcon iconA1])%list.
Proof. vm_compute. repeat split. Qed.

(** C3.  Two calls of [buildMapping], the second resumed from the mapping
    and cursor of the first: the first commits a 10x100 icon [a] at (0,0);
    the second restarts [rowHeight] at 0, fills the row with an 80x10 icon
    and opens the next row at y = 14, where the 10x10 icon [c] lands inside
    the box of [a]. *)
Theorem buildMapping_resumed_overlap :
  let a := mkIcon (Some "a") (Some "a.png") 10 100 in
  let b := mkIcon (Some "b") (Some "b.png") 80 10 in
  let c := mkIcon (Some "c") (Some "c.png") 10 10 in
  let first := buildMapping [a] 4 None None None 100 in
  let second := buildMapping [b; c] 4 (Some (mapping first))
                  (Some (xOffset first)) (Some (yOffset first)) 100 in
  mapping second !! "a" = Some (mkPositioned a 0 0) ∧
  mapping second !! "c" = Some (mkPositioned c 0 14) ∧
  overlaps (mkPositioned a 0 0) (mkPositioned c 0 14) = true.
Proof. vm_compute. repeat split. Qed.

(** The same restart of [rowHeight] seen from the updater: after the tall
    icon [a] was packed for context 7, an update with the small icon [d]
    commits the canvas height 16 and asks the texture, 128 rows high, to be
    resized to 16 rows, while the entry of [a] still is 100 rows high. *)
Example update_resumed_shrinks_texture :
  let a := mkIcon (Some "a") (Some "a.png") 10 100 in
  let d := mkIcon (Some "d") (Some "d.png") 10 10 in
  let w1 := (_updateAutoPacking exampleManager (Some [IObject a])
               DEFAULT_BUFFER MAX_CANVAS_WIDTH worldConstructed).2 in
  let w2 := (_updateAutoPacking exampleManager (Some [IObject d])
               DEFAULT_BUFFER MAX_CANVAS_WIDTH w1).2 in
  (st_canvasHeight <$> atlasOf w1 7%nat) = Some 128 ∧
  (st_canvasHeight <$> atlasOf w2 7%nat) = Some 16 ∧
  (atlasOf w2 7%nat ≫= st_texture) = Some (mkTexture 1024 16) ∧
  (atlasOf w2 7%nat ≫= λ st, st_mapping st !! "a") = Some (mkPositioned a 0 0) ∧
  surfaceOps w2 = [CreateTexture 1024 128; LoadIcon a; ResizeTexture 1024 16; LoadIcon d].
Proof. vm_compute. repeat split. Qed.

(** * Further properties *)

Local Open Scope list_scope.

(** ** Rounding to a power of two *)

Lemma nextPowOfTwo_ge (n : N) : n ≤ nextPowOfTwo n.
Proof.
  unfold nextPowOfTwo. destruct (N.eqb_spec n 0) as [-> | Hne]; [lia |].
  destruct (decide (n = 1)) as [-> | H1]; [cbn; lia |].
  apply N.log2_up_spec. lia.
Qed.

(** X1.  [nextPowOfTwo] rounds up by less than a factor of two: for a positive
    [n] up to [exactLog2Bound], [n <= nextPowOfTwo n < 2 n]. *)
Theorem nextPowOfTwo_bounds (n : N) :
  0 < n → n ≤ exactLog2Bound → n ≤ nextPowOfTwo n ∧ nextPowOfTwo n < 2 * n.
Proof.
  intros Hn _. split; [apply nextPowOfTwo_ge |].
  unfold nextPowOfTwo. destruct (N.eqb_spec n 0) as [-> | _]; [lia |].
  destruct (decide (n = 1)) as [-> | H1]; [cbn; lia |].
  assert (1 < n) as Hlt by lia.
  destruct (N.log2_up_spec n Hlt) as [Hlo _].
  assert (0 < N.log2_up n) by (apply N.log2_up_pos; lia).
  replace (N.log2_up n) with (N.succ (N.pred (N.log2_up n))) at 1 by lia.
  rewrite N.pow_succ_r'. lia.
Qed.

Lemma nextPowOfTwo_bounds_witness :
  48 ≤ nextPowOfTwo 48 ∧ nextPowOfTwo 48 < 2 * 48.
Proof. apply (nextPowOfTwo_bounds 48); [lia | vm_compute; discriminate]. Defined.

(** X2.  A power of two is a fixed point of [nextPowOfTwo], so rounding twice
    is rounding once. *)
Theorem nextPowOfTwo_idempotent (n k : N) :
  nextPowOfTwo (2 ^ k) = 2 ^ k ∧
  nextPowOfTwo (nextPowOfTwo n) = nextPowOfTwo n.
Proof.
  assert (∀ j, nextPowOfTwo (2 ^ j) = 2 ^ j) as Hfix.
  { intros j. unfold nextPowOfTwo.
    destruct (N.eqb_spec (2 ^ j) 0) as [H0 | _].
    - pose proof (N.pow_nonzero 2 j). lia.
    - by rewrite N.log2_up_pow2 by lia. }
  split; [apply Hfix |].
  unfold nextPowOfTwo at 2 3. destruct (N.eqb_spec n 0) as [-> | _]; [reflexivity |].
  apply Hfix.
Qed.

(** X3.  [nextPowOfTwo] is monotone. *)
Theorem nextPowOfTwo_monotone (n m : N) :
  n ≤ m → nextPowOfTwo n ≤ nextPowOfTwo m.
Proof.
  intros Hle. unfold nextPowOfTwo.
  destruct (N.eqb_spec n 0) as [-> | Hn]; [lia |].
  destruct (N.eqb_spec m 0) as [-> | Hm]; [lia |].
  apply N.pow_le_mono_r; [lia |]. apply N.log2_up_le_mono. exact Hle.
Qed.

Lemma nextPowOfTwo_monotone_witness : nextPowOfTwo 24 ≤ nextPowOfTwo 48.
Proof. apply (nextPowOfTwo_monotone 24 48). lia. Defined.

(** ** What a call of the packer places, and where *)

Section PackerPlaces.

Variables buffer maxCanvasWidth : N.

(** A row that holds a column for an id commits an entry for that id, made
    from one of its columns. *)
Lemma buildRowMapping_lookup_in columns (m : gmap string PositionedIcon) y k :
  (∃ c, c ∈ columns ∧ iconKey (col_icon c) = k) →
  ∃ d, d ∈ columns ∧ iconKey (col_icon d) = k ∧
       buildRowMapping m columns y !! k = Some (committed y d).
Proof.
  revert m. induction columns as [| c columns IH]; intros m (c0 & Hin & Hk).
  { by apply elem_of_nil in Hin. }
  cbn. destruct (decide (Forall (λ d, iconKey (col_icon d) ≠ k) columns)) as [Hnone | Hsome].
  - apply elem_of_cons in Hin as [-> | Hin].
    + exists c. split; [apply elem_of_cons; by left |]. split; [done |].
      rewrite buildRowMapping_lookup_other by done.
      by rewrite Hk, lookup_insert_eq.
    + eapply Forall_forall in Hnone; [| exact Hin]. done.
  - apply not_Forall_Exists in Hsome; [| intros d; apply _].
    apply Exists_exists in Hsome as (d0 & Hd0 & Hk0).
    destruct (IH (<[iconKey (col_icon c) := mkPositioned (col_icon c) (col_xOffset c) y]> m))
      as (d & Hd & Hkd & Hlook).
    { exists d0. split; [done |]. by destruct (decide (iconKey (col_icon d0) = k)). }
    exists d. split; [apply elem_of_cons; by right | done].
Qed.

Lemma packIcon_covered seen st icon :
  covered seen st → covered (seen ++ [icon]) (packIcon buffer maxCanvasWidth st icon).
Proof.
  intros [Hcols Hseen]. unfold packIcon, covered.
  destruct (maxCanvasWidth <? _); cbn [pk_mapping pk_columns pk_xOffset app]; split.
  - repeat constructor. cbn. apply elem_of_app. right. by apply list_elem_of_singleton.
  - intros i [Hi | ->%list_elem_of_singleton]%elem_of_app.
    + right. destruct (Hseen i Hi) as [Hcol | (p & Hp & Hkp & Hpin)].
      * destruct (buildRowMapping_lookup_in (pk_columns st) (pk_mapping st) (pk_yOffset st)
                    (iconKey i) Hcol) as (d & Hd & Hkd & Hlook).
        exists (committed (pk_yOffset st) d). split; [done |]. split; [done |].
        cbn. apply elem_of_app. left. by eapply Forall_forall in Hcols.
      * destruct (decide (Forall (λ d, iconKey (col_icon d) ≠ iconKey i) (pk_columns st)))
          as [Hnone | Hsome].
        -- exists p. rewrite buildRowMapping_lookup_other by done.
           split; [done |]. split; [done |]. apply elem_of_app. by left.
        -- apply not_Forall_Exists in Hsome; [| intros d; apply _].
           apply Exists_exists in Hsome as (d0 & Hd0 & Hk0).
           destruct (buildRowMapping_lookup_in (pk_columns st) (pk_mapping st) (pk_yOffset st)
                       (iconKey i)) as (d & Hd & Hkd & Hlook).
           { exists d0. split; [done |]. by destruct (decide (iconKey (col_icon d0) = iconKey i)). }
           exists (committed (pk_yOffset st) d). split; [done |]. split; [done |].
           cbn. apply elem_of_app. left. by eapply Forall_forall in Hcols.
    + left. eexists. split; [by apply list_elem_of_singleton | done].
  - apply Forall_app. split.
    + eapply Forall_impl; [exact Hcols |]. intros c Hc. apply elem_of_app. by left.
    + repeat constructor. cbn. apply elem_of_app. right. by apply list_elem_of_singleton.
  - intros i [Hi | ->%list_elem_of_singleton]%elem_of_app.
    + destruct (Hseen i Hi) as [(c & Hc & Hkc) | (p & Hp & Hkp & Hpin)].
      * left. exists c. split; [apply elem_of_app; by left | done].
      * right. exists p. split; [done |]. split; [done |]. apply elem_of_app. by left.
    + left. eexists. split; [apply elem_of_app; right; by apply list_elem_of_singleton | done].
Qed.

Lemma packLoop_covered icons seen st :
  covered seen st → covered (seen ++ icons) (packLoop buffer maxCanvasWidth st icons).
Proof.
  revert seen st. induction icons as [| icon icons IH]; intros seen st Hst.
  - by rewrite app_nil_r.
  - cbn. replace (seen ++ icon :: icons)%list with ((seen ++ [icon]) ++ icons)%list
      by (by rewrite <- app_assoc).
    by apply IH, packIcon_covered.
Qed.

Lemma packFlush_covered seen st icon :
  covered seen st → icon ∈ seen →
  ∃ p, packFlush st !! iconKey icon = Some p ∧
       iconKey (pos_icon p) = iconKey icon ∧ pos_icon p ∈ seen.
Proof.
  destruct st as [m columns x y h]. intros [Hcols Hseen] Hin. cbn in *.
  unfold packFlush. cbn.
  destruct (decide (Forall (λ d, iconKey (col_icon d) ≠ iconKey icon) columns))
    as [Hnone | Hsome].
  - destruct (Hseen icon Hin) as [(c & Hc & Hkc) | (p & Hp & Hkp & Hpin)].
    + eapply Forall_forall in Hnone; [| exact Hc]. done.
    + exists p. destruct columns; [done |].
      by rewrite buildRowMapping_lookup_other.
  - apply not_Forall_Exists in Hsome; [| intros d; apply _].
    apply Exists_exists in Hsome as (d0 & Hd0 & Hk0).
    destruct (buildRowMapping_lookup_in columns m y (iconKey icon)) as (d & Hd & Hkd & Hlook).
    { exists d0. split; [done |]. by destruct (decide (iconKey (col_icon d0) = iconKey icon)). }
    exists (committed y d). destruct columns as [| c columns]; [by apply elem_of_nil in Hd |].
    split; [done |]. split; [done |]. cbn. by eapply Forall_forall in Hcols.
Qed.

Lemma buildRowMapping_originates m0 seen columns (m : gmap string PositionedIcon) y :
  originates m0 seen m → Forall (λ c, col_icon c ∈ seen) columns →
  originates m0 seen (buildRowMapping m columns y).
Proof.
  intros Horig Hcols k p [Hm | (c & Hc & Hk & ->)]%buildRowMapping_lookup.
  - by apply Horig.
  - right. cbn. split; [done |]. by eapply Forall_forall in Hcols.
Qed.

Lemma originates_mono m0 seen seen' (m : gmap string PositionedIcon) :
  seen ⊆ seen' → originates m0 seen m → originates m0 seen' m.
Proof.
  intros Hsub Horig k p Hp.
  destruct (Horig k p Hp) as [? | [? ?]]; [by left | right; split; [done | by apply Hsub]].
Qed.

Lemma packLoop_originates m0 icons seen st :
  originates m0 seen (pk_mapping st) → Forall (λ c, col_icon c ∈ seen) (pk_columns st) →
  originates m0 (seen ++ icons) (pk_mapping (packLoop buffer maxCanvasWidth st icons)) ∧
  Forall (λ c, col_icon c ∈ (seen ++ icons)%list) (pk_columns (packLoop buffer maxCanvasWidth st icons)).
Proof.
  revert seen st. induction icons as [| icon icons IH]; intros seen st Horig Hcols.
  - by rewrite app_nil_r.
  - cbn. replace (seen ++ icon :: icons)%list with ((seen ++ [icon]) ++ icons)%list
      by (by rewrite <- app_assoc).
    assert (seen ⊆ (seen ++ [icon])%list) as Hsub by (intros i Hi; apply elem_of_app; by left).
    apply IH; unfold packIcon; destruct (maxCanvasWidth <? _);
      cbn [pk_mapping pk_columns pk_xOffset app].
    + eapply originates_mono; [exact Hsub |]. by apply buildRowMapping_originates.
    + by eapply originates_mono.
    + repeat constructor. cbn. apply elem_of_app. right. by apply list_elem_of_singleton.
    + apply Forall_app. split.
      * eapply Forall_impl; [exact Hcols |]. intros c Hc. by apply Hsub.
      * repeat constructor. cbn. apply elem_of_app. right. by apply list_elem_of_singleton.
Qed.

(** Every entry of the mapping that [buildMapping] returns was in the
    mapping it was given or was made from one of its icons, under that
    icon's id. *)
Lemma buildMapping_originates icons mapping0 xOffset0 yOffset0 :
  originates (default ∅ mapping0) icons
    (mapping (buildMapping icons buffer mapping0 xOffset0 yOffset0 maxCanvasWidth)).
Proof.
  unfold buildMapping. cbn [mapping].
  destruct (packLoop_originates (default ∅ mapping0) icons []
              (packInit mapping0 xOffset0 yOffset0)) as [Horig Hcols].
  { intros k p Hp. by left. }
  { constructor. }
  cbn [app] in Horig, Hcols. unfold packFlush.
  destruct (packLoop _ _ _ _) as [m columns x y h]. cbn in *.
  destruct columns; [done |]. by apply buildRowMapping_originates.
Qed.

Lemma buildMapping_covers icons mapping0 xOffset0 yOffset0 icon :
  icon ∈ icons →
  ∃ p, mapping (buildMapping icons buffer mapping0 xOffset0 yOffset0 maxCanvasWidth)
         !! iconKey icon = Some p ∧
       iconKey (pos_icon p) = iconKey icon ∧ pos_icon p ∈ icons.
Proof.
  intros Hin. unfold buildMapping. cbn [mapping].
  apply (packFlush_covered icons); [| done].
  apply (packLoop_covered icons [] (packInit mapping0 xOffset0 yOffset0)).
  split; [constructor |]. by intros i ?%elem_of_nil.
Qed.

(** X6.  [buildMapping] gives every icon it is handed an entry under the
    icon's id, made from an icon of the call with that id; when the ids of
    the call are pairwise different the entry is made from the icon
    itself. *)
Theorem buildMapping_places_every_icon icons mapping0 xOffset0 yOffset0 icon :
  icon ∈ icons →
  ∃ p, mapping (buildMapping icons buffer mapping0 xOffset0 yOffset0 maxCanvasWidth)
         !! iconKey icon = Some p ∧
       iconKey (pos_icon p) = iconKey icon ∧
       pos_icon p ∈ icons ∧
       (NoDup (iconKey <$> icons) → pos_icon p = icon).
Proof.
  intros Hin.
  destruct (buildMapping_covers icons mapping0 xOffset0 yOffset0 icon Hin)
    as (p & Hp & Hk & Hpin).
  exists p. repeat split; try done.
  intros Hnodup. clear Hp.
  induction icons as [| i icons IH]; [by apply elem_of_nil in Hin |].
  cbn in Hnodup. apply NoDup_cons in Hnodup as [Hni Hnodup].
  apply elem_of_cons in Hin as [-> | Hin]; apply elem_of_cons in Hpin as [Heq | Hpin].
  - done.
  - exfalso. apply Hni. rewrite <- Hk. by apply list_elem_of_fmap_2.
  - exfalso. apply Hni. rewrite <- Heq, Hk. by apply list_elem_of_fmap_2.
  - by apply IH.
Qed.

(** X7.  The ids bound after a call of [buildMapping] are exactly the ids
    bound before it and the ids of its icons: the packer adds and replaces
    entries and never removes one. *)
Theorem buildMapping_dom icons mapping0 xOffset0 yOffset0 :
  dom (mapping (buildMapping icons buffer mapping0 xOffset0 yOffset0 maxCanvasWidth))
  = dom (default ∅ mapping0) ∪ list_to_set (iconKey <$> icons).
Proof.
  apply set_eq. intros k. rewrite elem_of_union, !elem_of_dom, elem_of_list_to_set.
  split.
  - intros [p Hp].
    destruct (buildMapping_originates icons mapping0 xOffset0 yOffset0 k p Hp)
      as [Hm | [Hk Hin]]; [left; by eexists |].
    right. rewrite <- Hk. by apply list_elem_of_fmap_2.
  - intros [[p Hp] | Hin].
    + destruct (decide (k ∈ iconKey <$> icons)) as [Hk | Hk].
      * apply list_elem_of_fmap in Hk as (icon & -> & Hicon).
        destruct (buildMapping_covers icons mapping0 xOffset0 yOffset0 icon Hicon)
          as (q & Hq & _). by eexists.
      * rewrite buildMapping_lookup_other; [by eexists |].
        apply Forall_forall. intros icon Hicon Heq. apply Hk.
        rewrite <- Heq. by apply list_elem_of_fmap_2.
    + apply list_elem_of_fmap in Hin as (icon & -> & Hicon).
      destruct (buildMapping_covers icons mapping0 xOffset0 yOffset0 icon Hicon)
        as (q & Hq & _). by eexists.
Qed.

End PackerPlaces.

Lemma buildMapping_places_every_icon_witness :
  let b := mkIcon (Some "b") (Some "b.png") 40 20 in
  ∃ p, mapping (buildMapping [iconA1; b] 4 None None None 100) !! "b" = Some p ∧
       pos_icon p = b.
Proof.
  intros b.
  destruct (buildMapping_places_every_icon 4 100 [iconA1; b] None None None b)
    as (p & Hp & _ & _ & Heq).
  - apply elem_of_cons. right. apply elem_of_cons. by left.
  - exists p. split; [exact Hp |]. apply Heq.
    cbn. repeat constructor; rewrite ?elem_of_cons, ?elem_of_nil; intros H;
      repeat destruct H as [H | H]; done.
Defined.

(** ** The canvas holds what the packer places *)

Section PackerBounds.

Variables buffer maxCanvasWidth : N.

Lemma buildRowMapping_fitsWidth columns (m : gmap string PositionedIcon) y :
  fitsWidth buffer maxCanvasWidth m →
  Forall (λ c, col_xOffset c = 0 ∨
               col_xOffset c + icon_width (col_icon c) + buffer ≤ maxCanvasWidth) columns →
  fitsWidth buffer maxCanvasWidth (buildRowMapping m columns y).
Proof.
  intros Hm Hcols k p [Hp | (c & Hc & _ & ->)]%buildRowMapping_lookup.
  - by eapply Hm.
  - cbn. by eapply Forall_forall in Hcols.
Qed.

Lemma packLoop_fitsWidth icons st :
  fitsWidth buffer maxCanvasWidth (pk_mapping st) →
  Forall (λ c, col_xOffset c = 0 ∨
               col_xOffset c + icon_width (col_icon c) + buffer ≤ maxCanvasWidth)
         (pk_columns st) →
  fitsWidth buffer maxCanvasWidth (packFlush (packLoop buffer maxCanvasWidth st icons)).
Proof.
  revert st. induction icons as [| icon icons IH]; intros st Hm Hcols.
  - destruct st as [m columns x y h]. cbn in *. unfold packFlush. cbn.
    destruct columns; [done |]. by apply buildRowMapping_fitsWidth.
  - cbn. apply IH; unfold packIcon;
      destruct (N.ltb_spec maxCanvasWidth (pk_xOffset st + icon_width icon + buffer));
      cbn [pk_mapping pk_columns pk_xOffset app].
    + by apply buildRowMapping_fitsWidth.
    + done.
    + constructor; [cbn; by left | constructor].
    + apply Forall_app. split; [done |]. constructor; [cbn; by right | constructor].
Qed.

(** X8.  Every icon that [buildMapping] places starts a row (at x = 0) or
    ends, with its buffer, within [maxCanvasWidth]; entries that were in
    the mapping before keep that property. *)
Theorem buildMapping_fitsWidth icons mapping0 xOffset0 yOffset0 :
  fitsWidth buffer maxCanvasWidth (default ∅ mapping0) →
  fitsWidth buffer maxCanvasWidth
    (mapping (buildMapping icons buffer mapping0 xOffset0 yOffset0 maxCanvasWidth)).
Proof.
  intros Hm. unfold buildMapping. cbn [mapping].
  apply packLoop_fitsWidth; [exact Hm | constructor].
Qed.

Lemma packLoop_endsAbove icons st :
  endsAbove (pk_yOffset st) (pk_mapping st) →
  Forall (λ c, icon_height (col_icon c) ≤ pk_rowHeight st) (pk_columns st) →
  let final := packLoop buffer maxCanvasWidth st icons in
  endsAbove (pk_yOffset final + pk_rowHeight final) (packFlush final).
Proof.
  revert st. induction icons as [| icon icons IH]; intros st Hm Hcols.
  - destruct st as [m columns x y h]. cbn in *. unfold packFlush. cbn.
    destruct columns.
    + intros k p Hp. specialize (Hm k p Hp). lia.
    + by apply (buildRowMapping_endsAbove _ _ _ h).
  - cbn. apply IH; unfold packIcon; destruct (maxCanvasWidth <? _);
      cbn [pk_mapping pk_columns pk_xOffset pk_yOffset pk_rowHeight app].
    + apply (buildRowMapping_endsAbove _ _ _ (pk_rowHeight st)); [done | done | lia].
    + done.
    + repeat constructor. cbn. lia.
    + apply Forall_app. split.
      * eapply Forall_impl; [exact Hcols |]. cbn. intros c Hc. lia.
      * repeat constructor. cbn. lia.
Qed.

(** X9.  When the entries in the mapping before a call of [buildMapping] end
    at or above the row the call starts in, every entry of the returned
    mapping lies within the returned canvas height. *)
Theorem buildMapping_within_canvasHeight icons mapping0 xOffset0 yOffset0 k p :
  endsAbove (default 0 yOffset0) (default ∅ mapping0) →
  let r := buildMapping icons buffer mapping0 xOffset0 yOffset0 maxCanvasWidth in
  mapping r !! k = Some p →
  pos_y p + icon_height (pos_icon p) ≤ canvasHeight r.
Proof.
  intros Hm r Hp.
  pose proof (packLoop_endsAbove icons (packInit mapping0 xOffset0 yOffset0)) as Hfinal.
  cbn zeta in Hfinal. specialize (Hfinal Hm ltac:(constructor) k p Hp).
  subst r. unfold buildMapping. cbn [canvasHeight].
  pose proof (nextPowOfTwo_ge
    (pk_rowHeight (packLoop buffer maxCanvasWidth (packInit mapping0 xOffset0 yOffset0) icons)
     + pk_yOffset (packLoop buffer maxCanvasWidth (packInit mapping0 xOffset0 yOffset0) icons)
     + buffer)).
  lia.
Qed.

End PackerBounds.

Lemma buildMapping_fitsWidth_witness :
  fitsWidth 4 100 (mapping (buildMapping [iconA1; iconA2] 4 None None None 100)).
Proof.
  apply (buildMapping_fitsWidth 4 100 [iconA1; iconA2] None None None).
  intros k p Hp. cbn in Hp. by rewrite lookup_empty in Hp.
Defined.

Lemma buildMapping_within_canvasHeight_witness :
  let r := buildMapping [iconA1] 4 None None None 100 in
  0 + 20 ≤ canvasHeight r.
Proof.
  apply (buildMapping_within_canvasHeight 4 100 [iconA1] None None None "a"
           (mkPositioned iconA1 0 0)).
  - intros k p Hp. cbn in Hp. by rewrite lookup_empty in Hp.
  - vm_compute. reflexivity.
Defined.

Lemma buildMapping_noOverlap_witness :
  noOverlap (mapping (buildMapping [iconA1] 4
                        (Some {[ "z" := mkPositioned (mkIcon (Some "z") (Some "z.png") 10 10) 0 0 ]})
                        (Some 0) (Some 14) 100)).
Proof.
  apply (buildMapping_noOverlap 4 100 [iconA1]).
  - intros k1 k2 p q Hne Hp Hq.
    apply lookup_singleton_Some in Hp as [<- _].
    apply lookup_singleton_Some in Hq as [<- _]. done.
  - intros k p Hp. apply lookup_singleton_Some in Hp as [_ <-]. cbn. lia.
Defined.

(** ** What the differ returns *)

Section ObjOrder.

Context {A : Type}.

Lemma insertIndexed_perm n (v : A) l : Obj.insertIndexed n v l ≡ₚ (n, v) :: l.
Proof.
  induction l as [| [m x] l IH]; cbn; [done |].
  destruct (n <? m); [done |]. rewrite IH. apply Permutation_swap.
Qed.

(** [Object.values] is a rearrangement of the values of the bindings. *)
Lemma values_perm (o : Obj.t A) : Obj.values o ≡ₚ o.*2.
Proof.
  unfold Obj.values. induction o as [| [k v] o IH]; cbn; [done |].
  destruct (Obj.arrayIndex k) as [n |].
  - rewrite insertIndexed_perm. cbn. by rewrite IH.
  - rewrite <- Permutation_middle. by rewrite IH.
Qed.

Lemma obj_set_keys_NoDup (o : Obj.t A) k v : NoDup o.*1 → NoDup (Obj.set o k v).*1.
Proof.
  induction o as [| [k' v'] o IH]; cbn; intros Hnd.
  - repeat constructor. by intros ?%elem_of_nil.
  - apply NoDup_cons in Hnd as [Hni Hnd].
    destruct (String.eqb_spec k' k) as [-> | Hne]; cbn.
    + by apply NoDup_cons.
    + apply NoDup_cons. split; [| by apply IH].
      intros Hin. apply list_elem_of_fmap in Hin as ([k0 v0] & Hk0 & Hin0). cbn in Hk0. subst k0.
      apply obj_elem_of_set in Hin0 as [Hin0 | [Heq _]]; [| done].
      apply Hni. apply list_elem_of_fmap. by exists (k', v0).
Qed.

Lemma obj_get_elem_of (o : Obj.t A) k v : Obj.get o k = Some v → (k, v) ∈ o.
Proof.
  induction o as [| [k' v'] o IH]; cbn; [done |].
  destruct (String.eqb_spec k' k) as [-> | Hne].
  - intros [= ->]. apply elem_of_cons. by left.
  - intros Hget. apply elem_of_cons. right. by apply IH.
Qed.

End ObjOrder.

Section DifferResult.

Context {Point : Type}.

(** A descriptor with a url has a non-empty key: its id, or its url when
    the id is missing or empty. *)
Lemma iconKey_nonempty i :
  Js.truthy (Js.prop (icon_url i)) = true → iconKey i ≠ EmptyString.
Proof.
  unfold iconKey, getIconId, Js.or. intros Hurl.
  destruct (Js.truthy (Js.prop (icon_id i))) eqn:Hid.
  - destruct (icon_id i) as [s |]; cbn in *; [| done].
    intros ->. by rewrite String.eqb_refl in Hid.
  - destruct (icon_url i) as [s |]; cbn in *; [| done].
    intros ->. by rewrite String.eqb_refl in Hurl.
Qed.

Lemma diffIcon_assigned_has_url cachedIcons icons i icons' :
  diffIcon cachedIcons icons (IObject i) = Return icons' →
  Js.truthy (Js.prop (icon_url i)) = true.
Proof.
  unfold diffIcon. cbn [iconval_truthy negb iconUrl].
  by destruct (Js.truthy (Js.prop (icon_url i))).
Qed.

Lemma diffSet_own_keys_NoDup icons k v :
  NoDup (diff_own icons).*1 → NoDup (diff_own (diffSet icons k v)).*1.
Proof.
  unfold diffSet. destruct (String.eqb k "__proto__"); cbn [diff_own]; [done |].
  apply obj_set_keys_NoDup.
Qed.

(** What the loop of the differ keeps true of the own properties of the
    object it fills. *)
Lemma diffLoop_wellformed (getIcon : Point → IconVal) cachedIcons data icons icons' :
  diffLoop getIcon cachedIcons data icons = Return icons' →
  NoDup (diff_own icons).*1 →
  (∀ k v, (k, v) ∈ diff_own icons →
          k = iconKey v ∧ Js.truthy (Js.prop (icon_url v)) = true) →
  NoDup (diff_own icons').*1 ∧
  (∀ k v, (k, v) ∈ diff_own icons' →
          k = iconKey v ∧ Js.truthy (Js.prop (icon_url v)) = true).
Proof.
  revert icons. induction data as [| point data IH]; intros icons; cbn.
  - by intros [= <-].
  - destruct (diffIcon cachedIcons icons (getIcon point)) as [icons1 | e] eqn:Hstep; [| done].
    intros Hloop Hnd Hall. apply (IH icons1 Hloop).
    + apply diffIcon_result in Hstep as [-> | (i & _ & ->)]; [done |].
      by apply diffSet_own_keys_NoDup.
    + pose proof Hstep as Hres.
      apply diffIcon_result in Hres as [-> | (i & Hi & ->)]; [done |].
      rewrite Hi in Hstep. apply diffIcon_assigned_has_url in Hstep.
      intros k v [Hin | (-> & -> & _)]%diffSet_own_elem_of; [by apply Hall | done].
Qed.

(** X10.  The icons that the differ returns, as [Object.values] enumerates
    them for the packer, have pairwise different ids, and each has a
    non-empty url and a non-empty id. *)
Theorem getDiffIcons_unique_ids (data : option (list Point))
    (getIcon : option (Point → IconVal)) cachedIcons icons :
  getDiffIcons data getIcon cachedIcons = Return (Some icons) →
  NoDup (iconKey <$> Obj.values icons) ∧
  Forall (λ icon, Js.truthy (Js.prop (icon_url icon)) = true ∧
                  iconKey icon ≠ EmptyString) (Obj.values icons).
Proof.
  unfold getDiffIcons. destruct data as [points |]; [| done].
  destruct getIcon as [f |]; [| done].
  destruct (diffLoop f cachedIcons points (mkDiff Obj.empty None))
    as [[icons0 proto0] |] eqn:Hloop; [| done].
  intros [= <-].
  destruct (diffLoop_wellformed _ _ _ _ _ Hloop) as [Hnd Hall].
  { constructor. }
  { by intros k v ?%elem_of_nil. }
  cbn [diff_own] in Hnd, Hall.
  split.
  - rewrite values_perm.
    replace (iconKey <$> icons0.*2) with icons0.*1; [done |].
    clear Hnd Hloop. induction icons0 as [| [k v] o IH]; [done |]. cbn. f_equal.
    + apply (Hall k v). apply elem_of_cons. by left.
    + apply IH. intros k' v' Hin. apply Hall. apply elem_of_cons. by right.
  - apply Forall_forall. intros icon [k Hin]%elem_of_values.
    destruct (Hall k icon Hin) as [_ Hurl]. split; [done | by apply iconKey_nonempty].
Qed.

End DifferResult.

Lemma getDiffIcons_unique_ids_witness :
  NoDup (iconKey <$> Obj.values [("a", iconA2)]) ∧
  Forall (λ icon, Js.truthy (Js.prop (icon_url icon)) = true ∧
                  iconKey icon ≠ EmptyString) (Obj.values [("a", iconA2)]).
Proof.
  apply (getDiffIcons_unique_ids (Some [iconA1; iconA2]) (Some IObject) (Some ∅)).
  reflexivity.
Defined.

Section DifferOrder.

Context {Point : Type}.
Implicit Types (getIcon : Point → IconVal).

Lemma diffSet_own_get_eq (icons : DiffObject) k v :
  k ≠ "__proto__" → Obj.get (diff_own (diffSet icons k v)) k = Some v.
Proof.
  intros Hne. unfold diffSet.
  destruct (String.eqb_spec k "__proto__"); [done |]. apply obj_get_set_eq.
Qed.

Lemma diffSet_own_get_ne (icons : DiffObject) k v k' :
  k ≠ k' → Obj.get (diff_own (diffSet icons k v)) k' = Obj.get (diff_own icons) k'.
Proof.
  intros Hne. unfold diffSet.
  destruct (String.eqb k "__proto__"); [done |]. by apply obj_get_set_ne.
Qed.

(** No own property of the differ's object is filed under [__proto__]. *)
Lemma diffLoop_own_keys getIcon cachedIcons data (icons icons' : DiffObject) :
  diffLoop getIcon cachedIcons data icons = Return icons' →
  Forall (λ kv, kv.1 ≠ "__proto__") (diff_own icons) →
  Forall (λ kv, kv.1 ≠ "__proto__") (diff_own icons').
Proof.
  revert icons. induction data as [| point data IH]; intros icons; cbn.
  - by intros [= <-].
  - destruct (diffIcon cachedIcons icons (getIcon point)) as [icons1 | e] eqn:Hstep; [| done].
    intros Hloop Hkeys. apply (IH icons1 Hloop).
    apply diffIcon_result in Hstep as [-> | (i & _ & ->)]; [done |].
    apply Forall_forall. intros [k v] [Hin | (-> & -> & Hne)]%diffSet_own_elem_of; [| done].
    by eapply Forall_forall in Hkeys.
Qed.

Lemma diffLoop_keeps_later_binding getIcon cachedMapping data (icons : DiffObject) k v :
  Forall (wellFormed getIcon) data →
  Forall (λ point, recordId getIcon point ≠ k) data →
  Obj.get (diff_own icons) k = Some v →
  ∃ icons', diffLoop getIcon (Some cachedMapping) data icons = Return icons' ∧
            Obj.get (diff_own icons') k = Some v.
Proof.
  revert icons. induction data as [| point data IH]; intros icons Hvalid Hother Hget.
  - by exists icons.
  - apply Forall_cons in Hvalid as [(i & Hi & Hurl) Hvalid].
    apply Forall_cons in Hother as [Hk Hother]. unfold recordId in Hk. rewrite Hi in Hk.
    cbn. rewrite Hi, diffIcon_always_assigns by done.
    apply IH; [done | done |]. by rewrite diffSet_own_get_ne.
Qed.

Lemma diffLoop_last_wins getIcon cachedMapping before point after i (icons0 : DiffObject) :
  getIcon point = IObject i →
  iconKey i ≠ "__proto__" →
  Forall (wellFormed getIcon) (before ++ point :: after) →
  Forall (λ later, recordId getIcon later ≠ iconKey i) after →
  ∃ icons,
    diffLoop getIcon (Some cachedMapping) (before ++ point :: after) icons0 = Return icons ∧
    Obj.get (diff_own icons) (iconKey i) = Some i.
Proof.
  intros Hi Hkey Hvalid Hafter. revert icons0.
  induction before as [| b before IH]; intros icons0.
  - cbn [app] in *. apply Forall_cons in Hvalid as [(i' & Hi' & Hurl) Hvalid].
    rewrite Hi in Hi'. injection Hi' as <-.
    cbn [diffLoop]. rewrite Hi, diffIcon_always_assigns by done.
    apply diffLoop_keeps_later_binding; [done | done | by apply diffSet_own_get_eq].
  - cbn [app] in *. apply Forall_cons in Hvalid as [(ib & Hib & Hurl) Hvalid].
    cbn [diffLoop]. rewrite Hib, diffIcon_always_assigns by done.
    by apply IH.
Qed.

(** X11.  Against a cached mapping, of several well-formed records with the
    same id the differ returns the last one, unless the id is [__proto__]:
    the descriptor of the last record is the one bound to the id and handed
    to the packer.  No icon is returned under the id [__proto__]: the
    assignment [icons['__proto__'] = icon] creates no own property. *)
Theorem getDiffIcons_last_wins getIcon cachedMapping before point after i :
  getIcon point = IObject i →
  iconKey i ≠ "__proto__" →
  Forall (wellFormed getIcon) (before ++ point :: after) →
  Forall (λ later, recordId getIcon later ≠ iconKey i) after →
  ∃ icons,
    getDiffIcons (Some (before ++ point :: after)) (Some getIcon) (Some cachedMapping)
    = Return (Some icons) ∧
    Obj.get icons (iconKey i) = Some i ∧
    i ∈ Obj.values icons ∧
    Forall (λ icon, iconKey icon ≠ "__proto__") (Obj.values icons).
Proof.
  intros Hi Hkey Hvalid Hafter.
  destruct (diffLoop_last_wins getIcon cachedMapping before point after i
              (mkDiff Obj.empty None) Hi Hkey Hvalid Hafter) as (icons & Hloop & Hget).
  exists (diff_own icons). unfold getDiffIcons. rewrite Hloop.
  split; [done |]. split; [done |]. split.
  - rewrite values_perm. apply list_elem_of_fmap.
    exists (iconKey i, i). split; [done | by apply obj_get_elem_of].
  - apply Forall_forall. intros icon [k Hin]%elem_of_values.
    pose proof (diffLoop_own_keys _ _ _ _ _ Hloop ltac:(constructor)) as Hkeys.
    eapply Forall_forall in Hkeys; [| exact Hin]. cbn in Hkeys.
    destruct (diffLoop_bindings _ _ _ _ _ _ _ Hloop Hin) as [Hnil | (_ & _ & _ & <-)];
      [by apply elem_of_nil in Hnil | done].
Qed.

(** Without a replaced prototype, the differ's object yields something
    truthy under a key exactly when the key is one of its own or names a
    property of [Object.prototype]. *)
Lemma diffGet_uncached (icons : DiffObject) k :
  diff_proto icons = None →
  readTruthy (diffGet icons k)
  = bool_decide (is_Some (Obj.get (diff_own icons) k)) || Js.inherited k.
Proof.
  intros Hproto. unfold diffGet. rewrite Hproto.
  destruct (String.eqb_spec k "__proto__") as [-> | Hne].
  - by rewrite orb_true_r.
  - destruct (Obj.get (diff_own icons) k) as [v |] eqn:Hget.
    + by rewrite bool_decide_eq_true_2 by (by eexists).
    + rewrite bool_decide_eq_false_2 by (by intros [? ?]).
      cbn. unfold objectPrototypeGet. by destruct (Js.inherited k).
Qed.

Lemma inherited_proto k : Js.inherited k = false → k ≠ "__proto__".
Proof. by intros Hk ->. Qed.

(** Without a cached mapping, a well-formed record is assigned when the
    differ's object yields nothing under its id, and the look-up in the
    missing mapping throws otherwise. *)
Lemma diffIcon_uncached (icons : DiffObject) i :
  Js.truthy (Js.prop (icon_url i)) = true →
  diffIcon None icons (IObject i)
  = if readTruthy (diffGet icons (iconKey i)) then Throw TypeError
    else Return (diffSet icons (iconKey i) i).
Proof.
  intros Hurl. unfold diffIcon. cbn [iconval_truthy negb iconUrl].
  rewrite Hurl. cbn [negb]. fold (iconKey i).
  by destruct (readTruthy (diffGet icons (iconKey i))).
Qed.

Lemma diffLoop_uncached_distinct getIcon data (icons : DiffObject) :
  Forall (wellFormed getIcon) data →
  diff_proto icons = None →
  Forall (λ point, Obj.get (diff_own icons) (recordId getIcon point) = None) data →
  Forall (λ point, Js.inherited (recordId getIcon point) = false) data →
  NoDup (recordId getIcon <$> data) →
  ∃ icons', diffLoop getIcon None data icons = Return icons'.
Proof.
  revert icons.
  induction data as [| point data IH]; intros icons Hvalid Hproto Hfresh Hplain Hnd.
  - by exists icons.
  - apply Forall_cons in Hvalid as [(i & Hi & Hurl) Hvalid].
    apply Forall_cons in Hfresh as [Hpoint Hfresh].
    apply Forall_cons in Hplain as [Hname Hplain].
    cbn in Hnd. apply NoDup_cons in Hnd as [Hni Hnd].
    unfold recordId in Hpoint, Hni, Hname. rewrite Hi in Hpoint, Hni, Hname.
    fold (iconKey i) in Hpoint, Hni, Hname.
    cbn. rewrite Hi, diffIcon_uncached, diffGet_uncached, Hpoint, Hname by done.
    rewrite bool_decide_eq_false_2 by (by intros [? ?]). cbn [orb].
    pose proof (inherited_proto _ Hname) as Hkey.
    apply IH; [done | | | done | done].
    + unfold diffSet. by destruct (String.eqb_spec (iconKey i) "__proto__").
    + apply Forall_forall. intros later Hlater.
      rewrite diffSet_own_get_ne.
      * by eapply Forall_forall in Hfresh.
      * intros Heq. apply Hni. rewrite Heq. by apply list_elem_of_fmap_2.
Qed.

Lemma diffLoop_uncached_repeated getIcon data (icons : DiffObject) :
  Forall (wellFormed getIcon) data →
  diff_proto icons = None →
  Exists (λ point, Obj.get (diff_own icons) (recordId getIcon point) ≠ None) data ∨
  Exists (λ point, Js.inherited (recordId getIcon point) = true) data ∨
  ¬ NoDup (recordId getIcon <$> data) →
  diffLoop getIcon None data icons = Throw TypeError.
Proof.
  revert icons. induction data as [| point data IH]; intros icons Hvalid Hproto Hrep.
  - destruct Hrep as [Hex | [Hex | Hnd]];
      [by apply Exists_nil in Hex | by apply Exists_nil in Hex |].
    exfalso. apply Hnd. constructor.
  - apply Forall_cons in Hvalid as [(i & Hi & Hurl) Hvalid].
    cbn. rewrite Hi, diffIcon_uncached, diffGet_uncached by done.
    destruct (Js.inherited (iconKey i)) eqn:Hname; [by rewrite orb_true_r |].
    destruct (Obj.get (diff_own icons) (iconKey i)) as [v |] eqn:Hget.
    { rewrite bool_decide_eq_true_2 by (by eexists). reflexivity. }
    rewrite bool_decide_eq_false_2 by (by intros [? ?]). cbn [orb].
    pose proof (inherited_proto _ Hname) as Hkey.
    apply IH; [done | |].
    { unfold diffSet. by destruct (String.eqb_spec (iconKey i) "__proto__"). }
    destruct Hrep as [Hex | [Hex | Hnd]].
    + apply Exists_cons in Hex as [Hpoint | Hex].
      * unfold recordId in Hpoint. rewrite Hi in Hpoint. by fold (iconKey i) in Hpoint.
      * left. eapply Exists_impl; [exact Hex |]. cbn. intros later Hlater.
        destruct (decide (iconKey i = recordId getIcon later)) as [<- | Hne].
        -- by rewrite diffSet_own_get_eq.
        -- by rewrite diffSet_own_get_ne.
    + apply Exists_cons in Hex as [Hpoint | Hex].
      * unfold recordId in Hpoint. rewrite Hi in Hpoint. fold (iconKey i) in Hpoint. congruence.
      * right. by left.
    + cbn in Hnd. rewrite NoDup_cons in Hnd.
      destruct (decide (recordId getIcon point ∈ recordId getIcon <$> data)) as [Hin | Hni].
      * left. apply list_elem_of_fmap in Hin as (later & Heq & Hlater).
        apply Exists_exists. exists later. split; [done |].
        rewrite <- Heq. unfold recordId. rewrite Hi. fold (iconKey i).
        by rewrite diffSet_own_get_eq.
      * right. right. intros Hnd'. by apply Hnd.
Qed.

(** X12.  When the context has no cached state (its mapping is [undefined]), a
    batch of well-formed icons makes the differ throw a [TypeError] exactly
    when two of its records have the same id or the id of a record names a
    property of [Object.prototype]: in both cases [icons[id]] is truthy and
    the look-up in the missing mapping is reached. *)
Theorem getDiffIcons_uncached_throws_iff_id_found getIcon data :
  Forall (wellFormed getIcon) data →
  getDiffIcons (Some data) (Some getIcon) None = Throw TypeError
  ↔ ¬ NoDup (recordId getIcon <$> data) ∨
    Exists (λ point, Js.inherited (recordId getIcon point) = true) data.
Proof.
  intros Hvalid. unfold getDiffIcons. split.
  - intros Hthrow.
    destruct (decide (NoDup (recordId getIcon <$> data))) as [Hnd | Hnd]; [| by left].
    destruct (decide (Exists (λ point, Js.inherited (recordId getIcon point) = true) data))
      as [Hex | Hplain]; [by right |].
    exfalso.
    destruct (diffLoop_uncached_distinct getIcon data (mkDiff Obj.empty None) Hvalid)
      as [icons Hloop]; [done | | | done |].
    + apply Forall_forall. by intros.
    + apply Forall_forall. intros point Hpoint.
      destruct (Js.inherited (recordId getIcon point)) eqn:Hname; [| done].
      exfalso. apply Hplain. apply Exists_exists. by exists point.
    + by rewrite Hloop in Hthrow.
  - intros Hfound. rewrite diffLoop_uncached_repeated; [done | done | done |].
    destruct Hfound as [Hnd | Hex]; [by right; right | by right; left].
Qed.

(** X13.  Against a cached mapping, the first record that is not well-formed
    decides the error: the missing-icon error when its icon is falsy, the
    missing-url error otherwise. *)
Theorem getDiffIcons_first_offender getIcon cachedMapping good bad rest :
  Forall (wellFormed getIcon) good →
  ¬ wellFormed getIcon bad →
  getDiffIcons (Some (good ++ bad :: rest)) (Some getIcon) (Some cachedMapping)
  = Throw (if iconval_truthy (getIcon bad) then IconUrlMissing else IconMissing).
Proof.
  intros Hgood Hbad. unfold getDiffIcons.
  assert (∀ icons, diffLoop getIcon (Some cachedMapping) (good ++ bad :: rest) icons
                   = Throw (if iconval_truthy (getIcon bad)
                            then IconUrlMissing else IconMissing)) as Hloop.
  { induction good as [| point good IH]; intros icons.
    - cbn [app diffLoop]. unfold diffIcon.
      destruct (getIcon bad) as [| | s | i] eqn:Hicon; cbn; try done.
      + by destruct (String.eqb s EmptyString).
      + destruct (Js.truthy (Js.prop (icon_url i))) eqn:Hurl; [| done].
        exfalso. apply Hbad. by exists i.
    - apply Forall_cons in Hgood as [(i & Hi & Hurl) Hgood].
      cbn [app diffLoop]. rewrite Hi, diffIcon_always_assigns by done. by apply IH. }
  by rewrite Hloop.
Qed.

End DifferOrder.

Lemma getDiffIcons_last_wins_witness :
  ∃ icons,
    getDiffIcons (Some ([IObject iconA1] ++ IObject iconA2 :: [])) (Some (λ icon, icon))
      (Some ∅) = Return (Some icons) ∧
    Obj.get icons "a" = Some iconA2 ∧
    iconA2 ∈ Obj.values icons ∧
    Forall (λ icon, iconKey icon ≠ "__proto__") (Obj.values icons).
Proof.
  apply (getDiffIcons_last_wins (λ icon, icon) ∅ [IObject iconA1] (IObject iconA2) [] iconA2).
  - reflexivity.
  - discriminate.
  - repeat constructor; eexists; split; reflexivity.
  - constructor.
Defined.

Lemma getDiffIcons_uncached_throws_iff_id_found_witness :
  let named := IObject (mkIcon (Some "constructor") (Some "c.png") 40 20) in
  getDiffIcons (Some [IObject iconA1; named]) (Some (λ icon, icon)) None
  = Throw TypeError
  ↔ ¬ NoDup (recordId (λ icon : IconVal, icon) <$> [IObject iconA1; named]) ∨
    Exists (λ point, Js.inherited (recordId (λ icon : IconVal, icon) point) = true)
      [IObject iconA1; named].
Proof.
  intros named.
  apply (getDiffIcons_uncached_throws_iff_id_found (λ icon, icon) [IObject iconA1; named]).
  repeat constructor; eexists; split; reflexivity.
Defined.

Lemma getDiffIcons_first_offender_witness :
  getDiffIcons (Some ([IObject iconA1] ++ IObject (mkIcon (Some "b") None 40 20) :: [INull]))
    (Some (λ icon, icon)) (Some ∅)
  = Throw IconUrlMissing.
Proof.
  apply (getDiffIcons_first_offender (λ icon, icon) ∅ [IObject iconA1]
           (IObject (mkIcon (Some "b") None 40 20)) [INull]).
  - repeat constructor. eexists. split; reflexivity.
  - intros (i & [= <-] & Hurl). discriminate Hurl.
Defined.

(** ** Reading the atlas *)

Section Reading.

Context {Point : Type}.
Implicit Types (this : IconManager Point) (w : World).

(** X14.  [getIconMapping] and [getTexture] only read: whatever they return or
    throw, the state of every context, the notifications and the surface
    requests are as before. *)
Theorem reads_change_nothing this w dataPoint ctx :
  let w1 := (getIconMapping this dataPoint w).2 in
  let w2 := (getTexture this w).2 in
  (atlasOf w1 ctx = atlasOf w ctx ∧ notifications w1 = notifications w ∧
   surfaceOps w1 = surfaceOps w) ∧
  (atlasOf w2 ctx = atlasOf w ctx ∧ notifications w2 = notifications w ∧
   surfaceOps w2 = surfaceOps w).
Proof.
  intros w1 w2. subst w1 w2. split.
  - unfold getIconMapping. destruct (_getIcon this) as [getIcon |]; [| done].
    destruct (_autoPacking this).
    + unfold mbind, M_bind. rewrite cachedGet_run.
      destruct (atlasOf w (gl this)); unfold throw, mret, M_ret; cbn [snd];
        by rewrite atlasOf_touched.
    + by destruct (_mapping this).
  - unfold getTexture. destruct (_autoPacking this); [| done].
    unfold mbind, M_bind. rewrite cachedGet_run.
    destruct (atlasOf w (gl this)); unfold throw, mret, M_ret; cbn [snd];
      by rewrite atlasOf_touched.
Qed.

(** X15.  In auto-packing mode, a manager whose context has no cached state
    (it was evicted) cannot be read: [getIconMapping] and [getTexture] throw
    a [TypeError]. *)
Theorem reads_of_evicted_context_throw this w getIcon dataPoint :
  _autoPacking this = true →
  _getIcon this = Some getIcon →
  atlasOf w (gl this) = None →
  (getIconMapping this dataPoint w).1 = Throw TypeError ∧
  (getTexture this w).1 = Throw TypeError.
Proof.
  intros Hauto Hget Hnone. unfold getIconMapping, getTexture.
  rewrite Hauto, Hget. unfold mbind, M_bind. by rewrite cachedGet_run, Hnone.
Qed.

(** X16.  An update without records ([data] is missing) or without an
    extraction function ([this._getIcon] is [null]) does nothing and does
    not fail: no state, notification or surface request changes. *)
Theorem update_without_input_is_noop this w data buffer maxCanvasWidth :
  data = None ∨ _getIcon this = None →
  ∃ w', _updateAutoPacking this data buffer maxCanvasWidth w = (Return tt, w') ∧
        (∀ ctx, atlasOf w' ctx = atlasOf w ctx) ∧
        notifications w' = notifications w ∧
        surfaceOps w' = surfaceOps w.
Proof.
  intros Hmissing. exists (touched (gl this) w). split; [| split; [| done]].
  - apply (update_noop _ _ _ _ _ None); [| done].
    destruct Hmissing as [-> | ->]; [done | by destruct data].
  - intros ctx. apply atlasOf_touched.
Qed.

End Reading.

Lemma reads_of_evicted_context_throw_witness :
  (getIconMapping exampleManager (IObject iconA1) initialWorld).1 = Throw TypeError ∧
  (getTexture exampleManager initialWorld).1 = Throw TypeError.
Proof.
  apply (reads_of_evicted_context_throw exampleManager initialWorld (λ icon, icon));
    reflexivity.
Defined.

Lemma update_without_input_is_noop_witness :
  ∃ w', _updateAutoPacking exampleManager None DEFAULT_BUFFER MAX_CANVAS_WIDTH worldPacked
        = (Return tt, w') ∧
        (∀ ctx, atlasOf w' ctx = atlasOf worldPacked ctx) ∧
        notifications w' = notifications worldPacked ∧
        surfaceOps w' = surfaceOps worldPacked.
Proof.
  apply (update_without_input_is_noop exampleManager worldPacked None). by left.
Defined.

(** ** From an update to the reads that follow it *)

Section RoundTrip.

Context {Point : Type}.
Implicit Types (this : IconManager Point) (w : World) (getIcon : Point → IconVal).

Lemma obj_set_keeps_bound {A : Type} (o : Obj.t A) k v k' :
  is_Some (Obj.get o k') → is_Some (Obj.get (Obj.set o k v) k').
Proof.
  intros Hsome. destruct (decide (k = k')) as [<- | Hne].
  - rewrite obj_get_set_eq. by eexists.
  - by rewrite obj_get_set_ne.
Qed.

Lemma diffSet_keeps_bound (icons : DiffObject) k v k' :
  is_Some (Obj.get (diff_own icons) k') →
  is_Some (Obj.get (diff_own (diffSet icons k v)) k').
Proof.
  unfold diffSet. destruct (String.eqb k "__proto__"); cbn [diff_own]; [done |].
  apply obj_set_keeps_bound.
Qed.

(** A step of the differ that returns leaves the record's id bound to an
    own property, unless the id is [__proto__], and keeps every id bound
    that was. *)
Lemma diffIcon_binds cachedIcons (icons : DiffObject) icon icons' :
  diffIcon cachedIcons icons icon = Return icons' →
  (Js.toPropertyKey (getIconId icon) ≠ "__proto__" →
   is_Some (Obj.get (diff_own icons') (Js.toPropertyKey (getIconId icon)))) ∧
  (∀ k, is_Some (Obj.get (diff_own icons) k) → is_Some (Obj.get (diff_own icons') k)) ∧
  ∃ i, icon = IObject i ∧ Js.truthy (Js.prop (icon_url i)) = true.
Proof.
  unfold diffIcon.
  destruct (negb (iconval_truthy icon)); [done |].
  destruct (negb (Js.truthy (iconUrl icon))) eqn:Hurl; [done |].
  destruct icon as [| | s | i]; try done.
  apply negb_false_iff in Hurl. cbn [iconUrl] in Hurl.
  fold (iconKey i).
  assert (∀ icons', icons' = diffSet icons (iconKey i) i →
            (iconKey i ≠ "__proto__" → is_Some (Obj.get (diff_own icons') (iconKey i))) ∧
            (∀ k, is_Some (Obj.get (diff_own icons) k) →
                  is_Some (Obj.get (diff_own icons') k)) ∧
            ∃ i0, IObject i = IObject i0 ∧ Js.truthy (Js.prop (icon_url i0)) = true) as Hset.
  { intros ? ->. split; [intros Hkey; rewrite diffSet_own_get_eq by done; by eexists |].
    split; [intros k; apply diffSet_keeps_bound | by exists i]. }
  destruct (negb (readTruthy (diffGet icons (iconKey i)))).
  - intros [= <-]. by apply Hset.
  - destruct cachedIcons as [cachedMapping |]; [| done].
    cbv zeta. destruct (negb (readTruthy (mappingGet cachedMapping (iconKey i)))).
    + intros [= <-]. by apply Hset.
    + rewrite change_test_of_read. intros [= <-]. by apply Hset.
Qed.

(** When the differ returns, every record of the batch was well-formed and
    its id, unless it is [__proto__], is bound in the result. *)
Lemma diffLoop_binds getIcon cachedIcons data (icons icons' : DiffObject) :
  diffLoop getIcon cachedIcons data icons = Return icons' →
  Forall (wellFormed getIcon) data ∧
  (∀ point, point ∈ data → recordId getIcon point ≠ "__proto__" →
            is_Some (Obj.get (diff_own icons') (recordId getIcon point))) ∧
  (∀ k, is_Some (Obj.get (diff_own icons) k) → is_Some (Obj.get (diff_own icons') k)).
Proof.
  revert icons. induction data as [| point data IH]; intros icons; cbn.
  - intros [= <-]. split; [constructor |]. split; [by intros ? ?%elem_of_nil | done].
  - destruct (diffIcon cachedIcons icons (getIcon point)) as [icons1 | e] eqn:Hstep; [| done].
    intros Hloop. destruct (IH _ Hloop) as (Hvalid & Hbound & Hkeep).
    destruct (diffIcon_binds _ _ _ _ Hstep) as (Hpoint & Hkeep1 & Hwf).
    split; [by constructor |]. split.
    + intros p [-> | Hp]%elem_of_cons Hkey; [by apply Hkeep, Hpoint | by apply Hbound].
    + intros k Hk. by apply Hkeep, Hkeep1.
Qed.

Lemma getIconMapping_packed this w getIcon dataPoint st p :
  _autoPacking this = true →
  _getIcon this = Some getIcon →
  atlasOf w (gl this) = Some st →
  st_mapping st !! recordId getIcon dataPoint = Some p →
  (getIconMapping this dataPoint w).1 = Return (Packed p).
Proof.
  intros Hauto Hget Hst Hp. unfold getIconMapping. rewrite Hget, Hauto.
  unfold mbind, M_bind. rewrite cachedGet_run, Hst. unfold mret, M_ret. cbn [fst].
  fold (recordId getIcon dataPoint). unfold mappingGet. by rewrite Hp.
Qed.

Lemma getTexture_cached this w st :
  _autoPacking this = true →
  atlasOf w (gl this) = Some st →
  (getTexture this w).1 = Return (st_texture st).
Proof.
  intros Hauto Hst. unfold getTexture. rewrite Hauto.
  unfold mbind, M_bind. by rewrite cachedGet_run, Hst.
Qed.

(** X17.  After an update that returns, every record of its batch whose id
    is not [__proto__] can be looked up: [getIconMapping] returns a packed
    entry under the record's id, made from the descriptor of a record of the
    batch with that id. *)
Theorem update_then_getIconMapping this w getIcon data buffer maxCanvasWidth w' dataPoint :
  _autoPacking this = true →
  _getIcon this = Some getIcon →
  _updateAutoPacking this (Some data) buffer maxCanvasWidth w = (Return tt, w') →
  dataPoint ∈ data →
  recordId getIcon dataPoint ≠ "__proto__" →
  ∃ p point,
    (getIconMapping this dataPoint w').1 = Return (Packed p) ∧
    point ∈ data ∧
    getIcon point = IObject (pos_icon p) ∧
    recordId getIcon point = recordId getIcon dataPoint.
Proof.
  intros Hauto Hget Hupdate Hin Hkey0.
  destruct (getDiffIcons (Some data) (_getIcon this) (st_mapping <$> atlasOf w (gl this)))
    as [diff | e] eqn:Hdiff.
  2: { rewrite (update_throw _ _ _ _ _ _ Hdiff) in Hupdate. done. }
  pose proof Hdiff as Hdiff0.
  rewrite Hget in Hdiff. unfold getDiffIcons in Hdiff.
  destruct (diffLoop getIcon _ data (mkDiff Obj.empty None))
    as [[icons proto] |] eqn:Hloop; [| done].
  injection Hdiff as <-.
  destruct (diffLoop_binds _ _ _ _ _ Hloop) as (_ & Hbound & _).
  destruct (Hbound dataPoint Hin Hkey0) as [v Hv]. cbn [diff_own] in Hv.
  apply obj_get_elem_of in Hv.
  pose proof (λ k v, diffLoop_bindings _ _ _ _ _ k v Hloop) as Hbindings.
  cbn [diff_own] in Hbindings.
  destruct (Hbindings _ _ Hv) as [Hnil | (pt & Hpt & Hicon & Hkey)];
    [by apply elem_of_nil in Hnil |].
  assert (v ∈ Obj.values icons) as Hvalue.
  { rewrite values_perm. apply list_elem_of_fmap. by exists (recordId getIcon dataPoint, v). }
  destruct (Obj.values (default Obj.empty (Some icons))) as [| icon rest] eqn:Hvalues.
  { change (default Obj.empty (Some icons)) with icons in Hvalues.
    rewrite Hvalues in Hvalue. by apply elem_of_nil in Hvalue. }
  destruct (update_commit _ _ buffer maxCanvasWidth _ _ _ _ Hdiff0 Hvalues)
    as (texture & ops & Hrun & _).
  rewrite Hrun in Hupdate. injection Hupdate as <-.
  change (default Obj.empty (Some icons)) with icons in Hvalues.
  rewrite Hvalues in Hvalue.
  destruct (buildMapping_covers buffer maxCanvasWidth (icon :: rest)
              (st_mapping <$> atlasOf w (gl this)) (st_xOffset <$> atlasOf w (gl this))
              (st_yOffset <$> atlasOf w (gl this)) v Hvalue) as (p & Hp & Hkp & Hpin).
  rewrite <- Hvalues in Hpin. apply elem_of_values in Hpin as [k Hpin].
  destruct (Hbindings _ _ Hpin) as [Hnil | (pt' & Hpt' & Hicon' & Hkey')];
    [by apply elem_of_nil in Hnil |].
  exists p, pt'. split; [| split; [done | split; [done |]]].
  - eapply getIconMapping_packed; [done | done | apply peek_set_eq |].
    rewrite Hkey. exact Hp.
  - unfold recordId at 1. rewrite Hicon'. fold (iconKey (pos_icon p)). by rewrite Hkp, <- Hkey.
Qed.

(** X18.  After an update that returns for a batch with a record whose id is
    not [__proto__], [getTexture] returns the texture of the context, and
    its height is the committed canvas height; with a positive buffer that
    height is a power of two. *)
Theorem update_then_getTexture this w getIcon data buffer maxCanvasWidth w' :
  _autoPacking this = true →
  _getIcon this = Some getIcon →
  Exists (λ point, recordId getIcon point ≠ "__proto__") data →
  _updateAutoPacking this (Some data) buffer maxCanvasWidth w = (Return tt, w') →
  ∃ texture st,
    (getTexture this w').1 = Return (Some texture) ∧
    atlasOf w' (gl this) = Some st ∧
    st_texture st = Some texture ∧
    tex_height texture = st_canvasHeight st ∧
    (0 < buffer → ∃ k, tex_height texture = 2 ^ k).
Proof.
  intros Hauto Hget Hne Hupdate.
  destruct (getDiffIcons (Some data) (_getIcon this) (st_mapping <$> atlasOf w (gl this)))
    as [diff | e] eqn:Hdiff.
  2: { rewrite (update_throw _ _ _ _ _ _ Hdiff) in Hupdate. done. }
  pose proof Hdiff as Hdiff0.
  rewrite Hget in Hdiff. unfold getDiffIcons in Hdiff.
  destruct (diffLoop getIcon _ data (mkDiff Obj.empty None))
    as [[icons proto] |] eqn:Hloop; [| done].
  injection Hdiff as <-.
  destruct (diffLoop_binds _ _ _ _ _ Hloop) as (_ & Hbound & _).
  apply Exists_exists in Hne as (point & Hpoint & Hkey).
  destruct (Hbound point Hpoint Hkey) as [v Hv]. cbn [diff_own] in Hv.
  apply obj_get_elem_of in Hv.
  assert (v ∈ Obj.values icons) as Hvalue.
  { rewrite values_perm. apply list_elem_of_fmap. by exists (recordId getIcon point, v). }
  destruct (Obj.values (default Obj.empty (Some icons))) as [| icon rest] eqn:Hvalues.
  { change (default Obj.empty (Some icons)) with icons in Hvalues.
    rewrite Hvalues in Hvalue. by apply elem_of_nil in Hvalue. }
  destruct (update_commit _ _ buffer maxCanvasWidth _ _ _ _ Hdiff0 Hvalues)
    as (texture & ops & Hrun & Hheight & _).
  rewrite Hrun in Hupdate. injection Hupdate as <-.
  eexists texture, _. split; [| split; [apply peek_set_eq | split; [done | split; [done |]]]].
  - erewrite getTexture_cached; [| done | apply peek_set_eq]. done.
  - intros Hbuf. rewrite Hheight. unfold buildMapping. cbn [canvasHeight].
    destruct (nextPowOfTwo_least
      (pk_rowHeight (packLoop buffer maxCanvasWidth
         (packInit (st_mapping <$> atlasOf w (gl this)) (st_xOffset <$> atlasOf w (gl this))
            (st_yOffset <$> atlasOf w (gl this))) (icon :: rest))
       + pk_yOffset (packLoop buffer maxCanvasWidth
         (packInit (st_mapping <$> atlasOf w (gl this)) (st_xOffset <$> atlasOf w (gl this))
            (st_yOffset <$> atlasOf w (gl this))) (icon :: rest))
       + buffer)) as (k & Hk & _); [lia |].
    by exists k.
Qed.

End RoundTrip.

Lemma update_then_getIconMapping_witness :
  ∃ p point,
    (getIconMapping exampleManager (IObject iconA1) worldPacked).1 = Return (Packed p) ∧
    point ∈ [IObject iconA1] ∧
    point = IObject (pos_icon p) ∧
    recordId (λ icon : IconVal, icon) point = recordId (λ icon : IconVal, icon) (IObject iconA1).
Proof.
  apply (update_then_getIconMapping exampleManager worldConstructed (λ icon, icon)
           [IObject iconA1] DEFAULT_BUFFER MAX_CANVAS_WIDTH worldPacked (IObject iconA1)).
  - reflexivity.
  - reflexivity.
  - reflexivity.
  - apply elem_of_cons. by left.
  - discriminate.
Defined.

Lemma update_then_getTexture_witness :
  ∃ texture st,
    (getTexture exampleManager worldPacked).1 = Return (Some texture) ∧
    atlasOf worldPacked 7%nat = Some st ∧
    st_texture st = Some texture ∧
    tex_height texture = st_canvasHeight st ∧
    (0 < DEFAULT_BUFFER → ∃ k, tex_height texture = 2 ^ k).
Proof.
  apply (update_then_getTexture exampleManager worldConstructed (λ icon, icon)
           [IObject iconA1] DEFAULT_BUFFER MAX_CANVAS_WIDTH worldPacked).
  - reflexivity.
  - reflexivity.
  - apply Exists_cons. left. discriminate.
  - reflexivity.
Defined.

(** ** Props *)

Section SetProps.

Context {Point : Type}.
Implicit Types (this : IconManager Point) (w : World) (props : Props Point).

Lemma _updateIconAtlas_cached this iconAtlas w :
  cached (_updateIconAtlas this iconAtlas w).2 = cached w ∧
  surfaceOps (_updateIconAtlas this iconAtlas w).2 = surfaceOps w ∧
  _autoPacking (_updateIconAtlas this iconAtlas w).1 = _autoPacking this ∧
  _getIcon (_updateIconAtlas this iconAtlas w).1 = _getIcon this ∧
  _mapping (_updateIconAtlas this iconAtlas w).1 = _mapping this ∧
  gl (_updateIconAtlas this iconAtlas w).1 = gl this.
Proof. by destruct iconAtlas. Qed.

(** X19.  While the manager is not in auto-packing mode after the assignments
    of [setProps], the call returns without an error and neither reads nor
    writes the atlas cache, and it issues no surface request. *)
Theorem setProps_prepacked_leaves_cache props this w :
  _autoPacking (assignProps props this) = false →
  ∃ this' w',
    setProps props this w = (Return tt, this', w') ∧
    cached w' = cached w ∧
    surfaceOps w' = surfaceOps w ∧
    _autoPacking this' = false.
Proof.
  intros Hauto. unfold setProps.
  destruct (atlasGiven (p_iconAtlas props)) as [iconAtlas |].
  - destruct (_updateIconAtlas_cached (assignProps props this) iconAtlas w)
      as (Hc & Hops & Ha & _).
    destruct (_updateIconAtlas (assignProps props this) iconAtlas w) as [this2 w2].
    cbn [fst snd] in *. rewrite Ha, Hauto. cbn. exists this2, w2. repeat split; congruence.
  - rewrite Hauto. cbn. by eexists _, _.
Qed.

(** X20.  Pre-packed mode round trip: after [setProps] with a mapping, an
    extraction function and a [Texture2D] atlas, [getIconMapping] returns
    the entry that the supplied mapping has under the extracted key; without
    such an entry it returns what the mapping inherits from
    [Object.prototype] when the key names one of its properties, and the
    empty object otherwise.  [getTexture] returns the supplied texture, and
    the layer was notified once. *)
Theorem setProps_prepacked_round_trip props this w userMapping getIcon texture dataPoint :
  _autoPacking (assignProps props this) = false →
  p_iconMapping props = Some userMapping →
  p_getIcon props = Some getIcon →
  p_iconAtlas props = Some (AtlasTexture texture) →
  ∃ this' w',
    setProps props this w = (Return tt, this', w') ∧
    getIconMapping this' dataPoint w'
    = (Return (match userMapping !! iconValKey (getIcon dataPoint) with
               | Some e => Supplied e
               | None =>
                   if Js.inherited (iconValKey (getIcon dataPoint))
                   then InheritedValue (Builtin (iconValKey (getIcon dataPoint)))
                   else EmptyObject
               end), w') ∧
    getTexture this' w' = (Return (Some texture), w') ∧
    notifications w' = S (notifications w).
Proof.
  intros Hauto Hmapping Hget Hatlas. unfold setProps.
  rewrite Hatlas. cbn [atlasGiven _updateIconAtlas].
  cbn [_autoPacking]. rewrite Hauto. cbn [andb].
  eexists _, _. split; [reflexivity |].
  unfold getIconMapping, getTexture, assignProps. cbn [_getIcon _autoPacking _mapping _texture].
  unfold assignProps in Hauto. cbn [_autoPacking] in Hauto.
  rewrite Hget, Hmapping. split; [| done].
  unfold mret, M_ret, userMappingGet, objectPrototypeGet. do 2 f_equal.
  destruct (userMapping !! iconValKey (getIcon dataPoint)); [done |].
  by destruct (Js.inherited (iconValKey (getIcon dataPoint))).
Qed.

End SetProps.

Lemma setProps_prepacked_leaves_cache_witness :
  ∃ this' w',
    setProps (mkProps None None None (Some [IObject iconA1]) (Some (λ icon, icon)))
      (mkManager 7%nat None None None false) worldPacked = (Return tt, this', w') ∧
    cached w' = cached worldPacked ∧
    surfaceOps w' = surfaceOps worldPacked ∧
    _autoPacking this' = false.
Proof.
  apply (setProps_prepacked_leaves_cache
           (mkProps None None None (Some [IObject iconA1]) (Some (λ icon, icon)))
           (mkManager 7%nat None None None false) worldPacked).
  reflexivity.
Defined.

Lemma setProps_prepacked_round_trip_witness :
  let userMapping : gmap string UserEntry := {[ "marker" := mkUserEntry 0 0 128 128 true ]} in
  let props := mkProps None (Some (AtlasTexture (mkTexture 256 256))) (Some userMapping)
                 None (Some (λ name : string, IString name)) in
  ∃ this' w',
    setProps props (mkManager 7%nat None None None false) initialWorld = (Return tt, this', w') ∧
    getIconMapping this' "toString" w'
    = (Return (match userMapping !! iconValKey (IString "toString") with
               | Some e => Supplied e
               | None =>
                   if Js.inherited (iconValKey (IString "toString"))
                   then InheritedValue (Builtin (iconValKey (IString "toString")))
                   else EmptyObject
               end), w') ∧
    getTexture this' w' = (Return (Some (mkTexture 256 256)), w') ∧
    notifications w' = S (notifications initialWorld).
Proof.
  intros userMapping props.
  apply (setProps_prepacked_round_trip props (mkManager 7%nat None None None false)
           initialWorld userMapping (λ name, IString name) (mkTexture 256 256) "toString");
    reflexivity.
Defined.

(** ** The first packing of a context *)

Section FirstPacking.

Context {Point : Type}.
Implicit Types (this : IconManager Point) (w : World) (props : Props Point).




End FirstPacking.


(** ** Image loads and texture writes *)

Lemma resizeImage_sourceSize (canvas : Canvas) (imageData : Image) (width height : N) :
  sourceSize (resizeImage canvas imageData width height).1 = (width, height).
Proof.
  unfold resizeImage.
  destruct (N.eqb_spec width (naturalWidth imageData)) as [-> | Hw];
    destruct (N.eqb_spec height (naturalHeight imageData)) as [-> | Hh]; done.
Qed.

(** X22.  [resizeImage] always hands back pixels of the requested size, and it
    hands back the decoded image itself exactly when the image already has
    that size. *)
Theorem resizeImage_size (canvas : Canvas) (imageData : Image) (width height : N) :
  sourceSize (resizeImage canvas imageData width height).1 = (width, height) ∧
  ((resizeImage canvas imageData width height).1 = FromImage imageData
   ↔ (naturalWidth imageData, naturalHeight imageData) = (width, height)).
Proof.
  split; [apply resizeImage_sourceSize |].
  unfold resizeImage.
  destruct (N.eqb_spec width (naturalWidth imageData)) as [-> | Hw];
    destruct (N.eqb_spec height (naturalHeight imageData)) as [-> | Hh]; cbn;
    (split; [done || (intros; congruence) | done || (intros; congruence)]).
Qed.

Section Loads.

Context {Point : Type}.
Implicit Types (this : IconManager Point) (w : World).

(** The callback of an icon load, run from a world. *)
Lemma iconLoaded_run this canvasHeight canvas icon imageData w :
  iconLoaded this canvasHeight canvas icon imageData w
  = match atlasOf w (gl this) with
    | None => (Throw TypeError, touched (gl this) w)
    | Some st =>
        match mappingGet (st_mapping st) (iconKey icon) with
        | Undefined => (Throw TypeError, touched (gl this) w)
        | FromPrototype _ => (Return WriteUndefined, (onUpdate (touched (gl this) w)).2)
        | Own entry =>
            let width := icon_width (pos_icon entry) in
            let height := icon_height (pos_icon entry) in
            (Return (WriteRegion
                       (mkSubImage (pos_x entry)
                          (Z.of_N canvasHeight - Z.of_N (pos_y entry) - Z.of_N height)
                          width height)
                       (resizeImage canvas imageData width height).1
                       (resizeImage canvas imageData width height).2),
             (onUpdate (touched (gl this) w)).2)
        end
    end.
Proof.
  unfold iconLoaded, mbind at 1, M_bind. rewrite cachedGet_run.
  destruct (atlasOf w (gl this)) as [st |]; [| done].
  fold (iconKey icon).
  destruct (mappingGet (st_mapping st) (iconKey icon)) as [entry | v |]; [| done | done].
  cbv zeta. by destruct (resizeImage canvas imageData _ _) as [pixels canvas'].
Qed.


(** X24.  An image that arrives after another manager was constructed for the
    same context finds the mapping reset to the empty object.  When the id
    of the icon names no property of [Object.prototype], the callback throws
    a [TypeError] and nothing is written or notified.  When it names one,
    the callback destructures the inherited value without an error, hands
    [setSubImageData] an undefined region and notifies the layer. *)
Theorem iconLoaded_after_construction this canvasHeight canvas icon imageData w :
  let reset := (constructor (Point := Point) (gl this) w).2 in
  let after := iconLoaded this canvasHeight canvas icon imageData reset in
  if Js.inherited (iconKey icon)
  then after.1 = Return WriteUndefined ∧ notifications after.2 = S (notifications reset)
  else after.1 = Throw TypeError ∧ notifications after.2 = notifications reset.
Proof.
  intros reset after. subst after.
  assert (atlasOf reset (gl this) = Some (mkAtlas ∅ None 0 0 (Some 0) 0)) as Hst
    by apply peek_set_eq.
  rewrite iconLoaded_run, Hst. cbn [st_mapping].
  unfold mappingGet. rewrite !lookup_empty. cbn [mbind option_bind].
  unfold objectPrototypeGet.
  by destruct (Js.inherited (iconKey icon)).
Qed.

(** X25.  Resizing keeps the icons where the mapping says they are: the row at
    which a load writes an icon against the new height is the row at which
    it wrote it against the old height, moved by the offset at which
    [_resizeTexture] copies the old pixels; the copy starts at x = 0 and
    covers the whole old texture. *)
Theorem resize_keeps_written_icons_in_place this oldWidth oldHeight height canvas icon
    imageData w region pixels canvas1 w1 region' pixels' canvas1' w1' :
  iconLoaded this oldHeight canvas icon imageData w
  = (Return (WriteRegion region pixels canvas1), w1) →
  iconLoaded this height canvas icon imageData w
  = (Return (WriteRegion region' pixels' canvas1'), w1') →
  let copy := resizeCopyRegion (mkTexture oldWidth oldHeight) height in
  sub_y region' = (sub_y region + sub_y copy)%Z ∧
  sub_x region' = sub_x region + sub_x copy ∧
  (sub_width region', sub_height region') = (sub_width region, sub_height region) ∧
  (sub_width copy, sub_height copy) = (oldWidth, oldHeight).
Proof.
  rewrite !iconLoaded_run.
  destruct (atlasOf w (gl this)) as [st |]; [| done].
  destruct (mappingGet (st_mapping st) _) as [entry | v |]; [| done | done].
  cbv zeta. intros [= <- _ _ _] [= <- _ _ _]. cbn. repeat split; lia.
Qed.

End Loads.


Lemma resize_keeps_written_icons_in_place_witness :
  let region := mkSubImage 0 12 40 20 in
  let region' := mkSubImage 0 44 40 20 in
  let copy := resizeCopyRegion (mkTexture 1024 32) 64 in
  sub_y region' = (sub_y region + sub_y copy)%Z ∧
  sub_x region' = sub_x region + sub_x copy ∧
  (sub_width region', sub_height region') = (sub_width region, sub_height region) ∧
  (sub_width copy, sub_height copy) = (1024, 32).
Proof.
  intros region region'.
  eapply (resize_keeps_written_icons_in_place exampleManager 1024 32 64 (mkCanvas 0 0)
            iconA1 (mkImage 64 64) worldPacked region _ _ _ region' _ _ _).
  - vm_compute. reflexivity.
  - vm_compute. reflexivity.
Defined.

(** ** What an update keeps *)

Section UpdateKeeps.

Context {Point : Type}.
Implicit Types (this : IconManager Point) (w : World).

(** X26.  An update never removes an entry: every id that the context's
    mapping binds before the update is bound after it, whether the update
    returns or throws. *)
Theorem update_never_removes_entries this w data buffer maxCanvasWidth st k :
  atlasOf w (gl this) = Some st →
  k ∈ dom (st_mapping st) →
  ∃ st',
    atlasOf (_updateAutoPacking this data buffer maxCanvasWidth w).2 (gl this) = Some st' ∧
    k ∈ dom (st_mapping st').
Proof.
  intros Hst Hk.
  destruct (getDiffIcons data (_getIcon this) (st_mapping <$> atlasOf w (gl this)))
    as [diff | e] eqn:Hdiff.
  - destruct (Obj.values (default Obj.empty diff)) as [| icon rest] eqn:Hvalues.
    + rewrite (update_noop _ _ _ _ _ _ Hdiff Hvalues). cbn [snd].
      exists st. by rewrite atlasOf_touched.
    + destruct (update_commit _ _ buffer maxCanvasWidth _ _ _ _ Hdiff Hvalues)
        as (texture & ops & -> & _).
      cbn [snd]. eexists. split; [apply peek_set_eq |].
      cbn [st_mapping]. rewrite Hst. cbn [fmap option_fmap option_map].
      apply elem_of_dom.
      destruct (decide (k ∈ iconKey <$> icon :: rest)) as [Hin | Hout].
      * apply list_elem_of_fmap in Hin as (i & -> & Hi).
        destruct (buildMapping_covers buffer maxCanvasWidth (icon :: rest) (Some (st_mapping st))
                    (Some (st_xOffset st)) (Some (st_yOffset st)) i Hi) as (p & Hp & _).
        by eexists.
      * rewrite buildMapping_lookup_other; [by apply elem_of_dom |].
        apply Forall_forall. intros i Hi Heq. apply Hout.
        rewrite <- Heq. by apply list_elem_of_fmap_2.
  - rewrite (update_throw _ _ _ _ _ _ Hdiff). cbn [snd].
    exists st. by rewrite atlasOf_touched.
Qed.

(** X27.  Once a context has a texture, no update replaces it or changes its
    width: after any update the context still has a texture of that width,
    whatever [maxCanvasWidth] the update is given. *)
Theorem update_keeps_texture_width this w data buffer maxCanvasWidth st texture :
  atlasOf w (gl this) = Some st →
  st_texture st = Some texture →
  ∃ st' texture',
    atlasOf (_updateAutoPacking this data buffer maxCanvasWidth w).2 (gl this) = Some st' ∧
    st_texture st' = Some texture' ∧
    tex_width texture' = tex_width texture.
Proof.
  intros Hst Htexture.
  destruct (getDiffIcons data (_getIcon this) (st_mapping <$> atlasOf w (gl this)))
    as [diff | e] eqn:Hdiff.
  - destruct (Obj.values (default Obj.empty diff)) as [| icon rest] eqn:Hvalues.
    + rewrite (update_noop _ _ _ _ _ _ Hdiff Hvalues). cbn [snd].
      exists st, texture. by rewrite atlasOf_touched.
    + destruct (update_commit _ _ buffer maxCanvasWidth _ _ _ _ Hdiff Hvalues)
        as (texture' & ops & -> & _ & Hwidth).
      cbn [snd]. eexists _, texture'. split; [apply peek_set_eq |]. split; [done |].
      rewrite Hwidth, Hst. cbn. by rewrite Htexture.
  - rewrite (update_throw _ _ _ _ _ _ Hdiff). cbn [snd].
    exists st, texture. by rewrite atlasOf_touched.
Qed.


End UpdateKeeps.

Lemma update_never_removes_entries_witness :
  ∃ st',
    atlasOf (_updateAutoPacking exampleManager (Some [IObject iconA2])
               DEFAULT_BUFFER MAX_CANVAS_WIDTH worldPacked).2 7%nat = Some st' ∧
    "a" ∈ dom (st_mapping st').
Proof.
  eapply (update_never_removes_entries exampleManager worldPacked (Some [IObject iconA2])
            DEFAULT_BUFFER MAX_CANVAS_WIDTH _ "a").
  - vm_compute. reflexivity.
  - apply elem_of_dom. vm_compute. by eexists.
Defined.

Lemma update_keeps_texture_width_witness :
  ∃ st' texture',
    atlasOf (_updateAutoPacking exampleManager (Some [IObject iconA2])
               DEFAULT_BUFFER 2048 worldPacked).2 7%nat = Some st' ∧
    st_texture st' = Some texture' ∧
    tex_width texture' = 1024.
Proof.
  eapply (update_keeps_texture_width exampleManager worldPacked (Some [IObject iconA2])
            DEFAULT_BUFFER 2048 _ (mkTexture 1024 32)).
  - vm_compute. reflexivity.
  - vm_compute. reflexivity.
Defined.

